(** * A shallow embedding of [game.js]: avatars, viewport, protocol events, render pass

    The browser client in [game.js] keeps a mirror of the players the server
    announces, derives a camera (viewport) from the local player's position
    and paints the world image, the avatars and the name labels on a 2D
    canvas.  This development transcribes the two classes of the file,
    [Avatar] and [GameClient], into Rocq functions and proves the properties
    the specification states about them.

    Modelling choices, all dictated by the source:
    - JavaScript numbers are rationals ([Q]); the only arithmetic the file
      performs is subtraction, addition, halving, [Math.min]/[Math.max] and
      comparisons, all exact on the values involved.  Equality of numbers is
      [Qeq] ([==]).
    - [canvas.width] and [canvas.height] are integers ([Z]), as in the DOM.
    - Objects used as dictionaries ([players], [avatars], [frames],
      [loadedImages]) are finite maps [gmap string _]; a [for ... in] loop or
      [Object.assign] is a [map_fold] whose body is the loop body.  The
      iteration order of a [map_fold] is fixed but unrelated to JavaScript's
      insertion order; no statement below depends on it.  A lookup finds
      own keys only: player ids and avatar names are taken to differ from the
      property names every object inherits.
    - The 2D context is a record holding the current drawing state, the
      [save]/[restore] stack and the chronological list of painting calls
      issued so far; each painting call is recorded together with the drawing
      state (transform, styles) in force when it was issued.
    - Inbound messages are values of the inductive type [Message], one
      constructor per [case] of the [switch] in [handleMessage] plus one for
      any other action string.  [JSON.parse], a built-in, is a parameter of
      [onmessage] that either throws or yields a [Message]. *)

From Stdlib Require Import ZArith QArith Qminmax Lqa.
From stdpp Require Import gmap strings list fin_maps.

Local Open Scope Q_scope.

(** ** JavaScript numbers and arrays *)

Module Math.
(** [Math.max(a, b)] and [Math.min(a, b)] on finite numbers. *)
Definition max (a b : Q) : Q := Qmax a b.
Definition min (a b : Q) : Q := Qmin a b.
End Math.

(** [a <= b] and [a >= b] as JavaScript evaluates them. *)
Definition js_le (a b : Q) : bool := Qle_bool a b.
Definition js_ge (a b : Q) : bool := Qle_bool b a.

(** The truth value of a string: [!s] holds exactly for the empty string. *)
Definition truthy (s : string) : bool :=
  match s with
  | EmptyString => false
  | String _ _ => true
  end.

(** An image element.  [loaded] is true once its [onload] handler has run. *)
Record Image : Type := mkImage { src : string; loaded : bool }.

(** A JavaScript array of images with holes: a slot is [None] until something
    is assigned to it. *)
Abbreviation ImageArray := (list (option Image)).

(** [arr[i]]: [undefined] (here [None]) for a hole, an index past the end or
    an index that is not a non-negative integer. *)
Definition array_get (arr : ImageArray) (i : Z) : option Image :=
  if (0 <=? i)%Z then mjoin (arr !! Z.to_nat i) else None.

(** [arr[i] = img]: writing past the end extends the array with holes. *)
Definition array_set (arr : ImageArray) (i : nat) (img : Image) : ImageArray :=
  if (i <? length arr)%nat then <[i := Some img]> arr
  else arr ++ replicate (i - length arr)%nat None ++ [Some img].

(** ** The 2D rendering context *)

Module Canvas.

(** The current transformation matrix, [a b c d e f] as in the canvas API:
    a point [(px, py)] of user space lands on the surface at
    [(a px + c py + e, b px + d py + f)]. *)
Record Matrix : Type := mkMatrix { ma : Q; mb : Q; mc : Q; md : Q; me : Q; mf : Q }.

Definition identity : Matrix := mkMatrix 1 0 0 1 0 0.

Definition apply (m : Matrix) (p : Q * Q) : Q * Q :=
  (ma m * fst p + mc m * snd p + me m, mb m * fst p + md m * snd p + mf m).

(** The part of the drawing state the program touches. *)
Record DrawState : Type := mkDrawState {
  transform : Matrix;
  fillStyle : string;
  strokeStyle : string;
  lineWidth : Q;
  font : string;
  textAlign : string
}.

(** The state of a freshly created context. *)
Definition initialState : DrawState :=
  mkDrawState identity "#000000" "#000000" 1 "10px sans-serif" "start".

(** The painting calls of the canvas API that the program issues. *)
Inductive DrawOp : Type :=
| ClearRect (s : DrawState) (rx ry rw rh : Q)
| DrawImage (s : DrawState) (img : Image) (dx dy dw dh : Q)
| DrawImageCrop (s : DrawState) (img : Image) (sx sy sw sh dx dy dw dh : Q)
| StrokeText (s : DrawState) (text : string) (tx ty : Q)
| FillText (s : DrawState) (text : string) (tx ty : Q).

Record Context2D : Type := mkContext {
  current : DrawState;
  saved : list DrawState;
  calls : list DrawOp
}.

Definition fresh : Context2D := mkContext initialState [] [].

Definition with_current (f : DrawState → DrawState) (ctx : Context2D) : Context2D :=
  mkContext (f (current ctx)) (saved ctx) (calls ctx).

Definition paint (op : DrawState → DrawOp) (ctx : Context2D) : Context2D :=
  mkContext (current ctx) (saved ctx) (calls ctx ++ [op (current ctx)]).

(** [ctx.save()] *)
Definition save (ctx : Context2D) : Context2D :=
  mkContext (current ctx) (current ctx :: saved ctx) (calls ctx).

(** [ctx.restore()]; with an empty stack the call does nothing. *)
Definition restore (ctx : Context2D) : Context2D :=
  match saved ctx with
  | [] => ctx
  | s :: rest => mkContext s rest (calls ctx)
  end.

(** [ctx.scale(sx, sy)] *)
Definition scale (sx sy : Q) : Context2D → Context2D :=
  with_current (λ s,
    let m := transform s in
    mkDrawState (mkMatrix (ma m * sx) (mb m * sx) (mc m * sy) (md m * sy) (me m) (mf m))
                (fillStyle s) (strokeStyle s) (lineWidth s) (font s) (textAlign s)).

Definition set_fillStyle (v : string) : Context2D → Context2D :=
  with_current (λ s, mkDrawState (transform s) v (strokeStyle s) (lineWidth s) (font s) (textAlign s)).
Definition set_strokeStyle (v : string) : Context2D → Context2D :=
  with_current (λ s, mkDrawState (transform s) (fillStyle s) v (lineWidth s) (font s) (textAlign s)).
Definition set_lineWidth (v : Q) : Context2D → Context2D :=
  with_current (λ s, mkDrawState (transform s) (fillStyle s) (strokeStyle s) v (font s) (textAlign s)).
Definition set_font (v : string) : Context2D → Context2D :=
  with_current (λ s, mkDrawState (transform s) (fillStyle s) (strokeStyle s) (lineWidth s) v (textAlign s)).
Definition set_textAlign (v : string) : Context2D → Context2D :=
  with_current (λ s, mkDrawState (transform s) (fillStyle s) (strokeStyle s) (lineWidth s) (font s) v).

(** [ctx.clearRect(x, y, w, h)] *)
Definition clearRect (rx ry rw rh : Q) : Context2D → Context2D :=
  paint (λ s, ClearRect s rx ry rw rh).

(** [ctx.drawImage(img, dx, dy, dw, dh)] *)
Definition drawImage (img : Image) (dx dy dw dh : Q) : Context2D → Context2D :=
  paint (λ s, DrawImage s img dx dy dw dh).

(** [ctx.drawImage(img, sx, sy, sw, sh, dx, dy, dw, dh)] *)
Definition drawImageCrop (img : Image) (sx sy sw sh dx dy dw dh : Q) : Context2D → Context2D :=
  paint (λ s, DrawImageCrop s img sx sy sw sh dx dy dw dh).

(** [ctx.strokeText(text, x, y)] and [ctx.fillText(text, x, y)] *)
Definition strokeText (text : string) (tx ty : Q) : Context2D → Context2D :=
  paint (λ s, StrokeText s text tx ty).
Definition fillText (text : string) (tx ty : Q) : Context2D → Context2D :=
  paint (λ s, FillText s text tx ty).

End Canvas.

(** ** class Avatar *)

(** The avatar definition the server sends: a name and, per facing direction,
    the encoded sources of the animation frames. *)
Record AvatarData : Type := mkAvatarData {
  data_name : string;
  data_frames : gmap string (list string)
}.

Module Avatar.

Record t : Type := mk {
  name : string;
  frames : gmap string (list string);
  loadedImages : gmap string ImageArray
}.

(** [loadImages()]: every direction of [frames] gets an empty array of
    loaded images; one image per frame source starts loading.  The images
    arrive later, one [onload] each. *)
Definition loadImages (this : t) : t :=
  mk (name this) (frames this)
     (map_fold (λ direction _ acc, <[direction := []]> acc)
               (loadedImages this) (frames this)).

(** [constructor(avatarData)] *)
Definition new (avatarData : AvatarData) : t :=
  loadImages (mk (data_name avatarData) (data_frames avatarData) ∅).

(** The [img.onload] handler installed by [loadImages] for the frame at
    [index] of [direction]: [this.loadedImages[direction][index] = img].
    It only exists for the frame sources present in [frames]. *)
Definition onload (direction : string) (index : nat) (this : t) : t :=
  match frames this !! direction ≫= (λ sources, sources !! index) with
  | Some base64Data =>
      match loadedImages this !! direction with
      | Some arr =>
          mk (name this) (frames this)
             (<[direction := array_set arr index (mkImage base64Data true)]>
                (loadedImages this))
      | None => this
      end
  | None => this
  end.

(** [this.loadedImages[direction]?.[animationFrame]] *)
Definition lookupFrame (this : t) (direction : string) (animationFrame : Z)
  : option Image :=
  loadedImages this !! direction ≫= (λ arr, array_get arr animationFrame).

(** [draw(ctx, x, y, facing, animationFrame, isWest = false)] *)
Definition draw (this : t) (ctx : Canvas.Context2D) (x y : Q) (facing : string)
    (animationFrame : Z) (isWest : bool) : Canvas.Context2D :=
  let direction := if isWest then "east"%string else facing in
  match lookupFrame this direction animationFrame with
  | None => ctx
  | Some frame =>
      let avatarSize : Q := 32 in
      let ctx := Canvas.save ctx in
      let ctx :=
        if isWest then
          let ctx := Canvas.scale (-1) 1 ctx in
          Canvas.drawImage frame (- x - avatarSize / 2) (y - avatarSize / 2)
                           avatarSize avatarSize ctx
        else
          Canvas.drawImage frame (x - avatarSize / 2) (y - avatarSize / 2)
                           avatarSize avatarSize ctx in
      Canvas.restore ctx
  end.

End Avatar.

(** ** Players and protocol messages *)

Module Player.
(** The fields of a player record that the client reads. *)
Record t : Type := mk {
  id : string;
  username : string;
  x : Q;
  y : Q;
  facing : string;
  animationFrame : Z;
  avatar : string
}.
End Player.

(** A decoded inbound message, by its [action]. *)
Inductive Message : Type :=
| join_game (success : bool) (playerId : string)
            (players : gmap string Player.t)
            (avatars : gmap string AvatarData) (error : string)
| player_joined (player : Player.t) (avatar : option AvatarData)
| players_moved (players : gmap string Player.t)
| player_left (playerId : string)
| other_action (action : string).

(** The outcome of evaluating an expression that may throw: a value, or the
    description of the error thrown. *)
Inductive Completion (A : Type) : Type :=
| Normal (value : A)
| Throw (error : string).
Arguments Normal {A} value.
Arguments Throw {A} error.

#[global] Instance Completion_ret : MRet Completion := λ A value, Normal value.

#[global] Instance Completion_bind : MBind Completion := λ A B k c,
  match c with
  | Normal value => k value
  | Throw error => Throw error
  end.

(** [try { body } catch (error) { handler }] *)
Definition try_catch {A : Type} (body : Completion A) (handler : string → A) : A :=
  match body with
  | Normal value => value
  | Throw error => handler error
  end.

(** One line of the console. *)
Inductive LogEntry : Type :=
| console_log (args : list string)
| console_error (args : list string).

(** [Object.assign(target, source)]: every own key of [source] is assigned on
    [target]. *)
Definition Object_assign {V : Type} (target source : gmap string V) : gmap string V :=
  map_fold (λ key value acc, <[key := value]> acc) target source.

(** ** class GameClient *)

Module GameClient.

(** The fields of the client.  [canvas_width] and [canvas_height] are
    [this.canvas.width] and [this.canvas.height]; [console] is the browser
    console, kept here so that logging is observable.  The socket [ws] only
    carries messages to and from the handlers below and is not a field; the
    outbound join request and the resize listener are left out. *)
Record t : Type := mk {
  canvas_width : Z;
  canvas_height : Z;
  ctx : Canvas.Context2D;
  worldImage : option Image;
  worldWidth : Q;
  worldHeight : Q;
  playerId : option string;
  players : gmap string Player.t;
  avatars : gmap string Avatar.t;
  viewportX : Q;
  viewportY : Q;
  console : list LogEntry
}.

Definition set_ctx (c : Canvas.Context2D) (this : t) : t :=
  mk (canvas_width this) (canvas_height this) c (worldImage this)
     (worldWidth this) (worldHeight this) (playerId this) (players this)
     (avatars this) (viewportX this) (viewportY this) (console this).

Definition set_worldImage (img : option Image) (this : t) : t :=
  mk (canvas_width this) (canvas_height this) (ctx this) img
     (worldWidth this) (worldHeight this) (playerId this) (players this)
     (avatars this) (viewportX this) (viewportY this) (console this).

Definition set_playerId (pid : option string) (this : t) : t :=
  mk (canvas_width this) (canvas_height this) (ctx this) (worldImage this)
     (worldWidth this) (worldHeight this) pid (players this)
     (avatars this) (viewportX this) (viewportY this) (console this).

Definition set_players (ps : gmap string Player.t) (this : t) : t :=
  mk (canvas_width this) (canvas_height this) (ctx this) (worldImage this)
     (worldWidth this) (worldHeight this) (playerId this) ps
     (avatars this) (viewportX this) (viewportY this) (console this).

Definition set_avatars (avs : gmap string Avatar.t) (this : t) : t :=
  mk (canvas_width this) (canvas_height this) (ctx this) (worldImage this)
     (worldWidth this) (worldHeight this) (playerId this) (players this)
     avs (viewportX this) (viewportY this) (console this).

Definition set_viewportX (v : Q) (this : t) : t :=
  mk (canvas_width this) (canvas_height this) (ctx this) (worldImage this)
     (worldWidth this) (worldHeight this) (playerId this) (players this)
     (avatars this) v (viewportY this) (console this).

Definition set_viewportY (v : Q) (this : t) : t :=
  mk (canvas_width this) (canvas_height this) (ctx this) (worldImage this)
     (worldWidth this) (worldHeight this) (playerId this) (players this)
     (avatars this) (viewportX this) v (console this).

(** [console.log(...)] and [console.error(...)] *)
Definition log (entry : LogEntry) (this : t) : t :=
  mk (canvas_width this) (canvas_height this) (ctx this) (worldImage this)
     (worldWidth this) (worldHeight this) (playerId this) (players this)
     (avatars this) (viewportX this) (viewportY this) (console this ++ [entry]).

(** [loadWorldMap()]: the image element is stored at once; its [onload]
    and [onerror] handlers are [worldImage_onload] and [worldImage_onerror]
    below. *)
Definition loadWorldMap (this : t) : t :=
  set_worldImage (Some (mkImage "world.jpg" false)) this.

(** [constructor()] followed by [init()], in a window of the given inner
    size.  [setupCanvas] sizes the canvas; [connectToServer] only installs
    handlers. *)
Definition new (innerWidth innerHeight : Z) : t :=
  loadWorldMap
    (mk innerWidth innerHeight Canvas.fresh None 2048 2048 None ∅ ∅ 0 0 []).

(** [updateViewport()] *)
Definition updateViewport (this : t) : t :=
  match playerId this with
  | None => this
  | Some pid =>
      if truthy pid then
        match players this !! pid with
        | None => this
        | Some player =>
            let centerX := Player.x player in
            let centerY := Player.y player in
            let this :=
              set_viewportX
                (Math.max 0 (Math.min
                   (worldWidth this - inject_Z (canvas_width this))
                   (centerX - inject_Z (canvas_width this) / 2))) this in
            set_viewportY
              (Math.max 0 (Math.min
                 (worldHeight this - inject_Z (canvas_height this))
                 (centerY - inject_Z (canvas_height this) / 2))) this
        end
      else this
  end.

(** [worldToCanvas(worldX, worldY)] *)
Definition worldToCanvas (this : t) (worldX worldY : Q) : Q * Q :=
  (worldX - viewportX this, worldY - viewportY this).

(** [drawPlayer(player, x, y)], on the context [c]. *)
Definition drawPlayer (this : t) (player : Player.t) (x y : Q)
    (c : Canvas.Context2D) : Canvas.Context2D :=
  match avatars this !! Player.avatar player with
  | None => c
  | Some avatar =>
      let isWest := bool_decide (Player.facing player = "west"%string) in
      let c := Avatar.draw avatar c x y (Player.facing player)
                           (Player.animationFrame player) isWest in
      let c := Canvas.save c in
      let c := Canvas.set_fillStyle "white" c in
      let c := Canvas.set_strokeStyle "black" c in
      let c := Canvas.set_lineWidth 2 c in
      let c := Canvas.set_font "12px Arial" c in
      let c := Canvas.set_textAlign "center" c in
      let labelY := y - 25 in
      let c := Canvas.strokeText (Player.username player) x labelY c in
      let c := Canvas.fillText (Player.username player) x labelY c in
      Canvas.restore c
  end.

(** The body of the loop of [render] over [this.players]. *)
Definition renderPlayer (this : t) (player : Player.t)
    (c : Canvas.Context2D) : Canvas.Context2D :=
  let canvasPos := worldToCanvas this (Player.x player) (Player.y player) in
  if js_ge (fst canvasPos) (-50)
     && js_le (fst canvasPos) (inject_Z (canvas_width this) + 50)
     && js_ge (snd canvasPos) (-50)
     && js_le (snd canvasPos) (inject_Z (canvas_height this) + 50)
  then drawPlayer this player (fst canvasPos) (snd canvasPos) c
  else c.

(** [render()] *)
Definition render (this : t) : t :=
  match worldImage this with
  | None => this
  | Some image =>
      let width := inject_Z (canvas_width this) in
      let height := inject_Z (canvas_height this) in
      let c := Canvas.clearRect 0 0 width height (ctx this) in
      let c := Canvas.drawImageCrop image
                 (viewportX this) (viewportY this) width height
                 0 0 width height c in
      let c := map_fold (λ _ player acc, renderPlayer this player acc)
                        c (players this) in
      set_ctx c this
  end.

(** [handleMessage(message)] *)
Definition handleMessage (message : Message) (this : t) : t :=
  match message with
  | join_game success pid snapshot definitions error =>
      if success then
        let this := set_playerId (Some pid) this in
        let this := set_players snapshot this in
        let this := set_avatars ∅ this in
        let this :=
          map_fold (λ avatarName avatarData acc,
                      set_avatars (<[avatarName := Avatar.new avatarData]> (avatars acc)) acc)
                   this definitions in
        let this := updateViewport this in
        let this := render this in
        log (console_log ["Joined game successfully, player ID:"; pid]%string) this
      else
        log (console_error ["Failed to join game:"; error]%string) this
  | player_joined player avatar =>
      let this := set_players (<[Player.id player := player]> (players this)) this in
      let this :=
        match avatar with
        | Some avatarData =>
            set_avatars (<[data_name avatarData := Avatar.new avatarData]> (avatars this)) this
        | None => this
        end in
      render this
  | players_moved moved =>
      let this := set_players (Object_assign (players this) moved) this in
      let this := updateViewport this in
      render this
  | player_left pid =>
      let this := set_players (delete pid (players this)) this in
      render this
  | other_action _ => this
  end.

(** The [onload] handler of the world image: the image is now loaded and a
    frame is rendered. *)
Definition worldImage_onload (this : t) : t :=
  match worldImage this with
  | Some image => render (set_worldImage (Some (mkImage (src image) true)) this)
  | None => this
  end.

(** The [onerror] handler of the world image. *)
Definition worldImage_onerror (this : t) : t :=
  log (console_error ["Failed to load world map image"%string]) this.

Section Transport.
(** [JSON.parse], which either returns the decoded message or throws. *)
Variable JSON_parse : string → Completion Message.

(** [ws.onmessage]: the [try] block decodes and dispatches, the [catch]
    block logs whatever was thrown.  On a decoded [Message] the dispatch
    itself completes normally. *)
Definition onmessage (data : string) (this : t) : t :=
  try_catch
    (message ← JSON_parse data;
     mret (handleMessage message this))
    (λ error, log (console_error ["Error parsing message:"; error]%string) this).
End Transport.

End GameClient.

Import GameClient.

(** * Vocabulary of the statements *)

(** The clamp of the specification: [v] limited to the interval [lo, hi]. *)
Definition clamp (v lo hi : Q) : Q :=
  if Qlt_le_dec v lo then lo else if Qlt_le_dec hi v then hi else v.

(** The viewport origin as the specification writes it. *)
Definition spec_computeViewport (focalX focalY viewportW viewportH worldW worldH : Q)
  : Q * Q :=
  (clamp (focalX - viewportW / 2) 0 (Qmax 0 (worldW - viewportW)),
   clamp (focalY - viewportH / 2) 0 (Qmax 0 (worldH - viewportH))).

(** A client whose local player "p1" stands at (1900, 50) in the 2048 x 2048
    world, seen through an 800 x 600 canvas. *)
Definition corner_client : t :=
  set_players {[ "p1"%string := Player.mk "p1" "Olutobi" 1900 50 "south" 0 "a1" ]}
    (set_playerId (Some "p1"%string) (new 800 600)).

(** The session state: local player id, player mapping, avatar mapping and
    viewport. *)
Definition session (this : t)
  : option string * gmap string Player.t * gmap string Avatar.t * Q * Q :=
  (playerId this, players this, avatars this, viewportX this, viewportY this).

(** A decoder to run [onmessage] with: it accepts the empty object, whose
    [action] matches no case, and throws on everything else. *)
Definition sample_parse (data : string) : Completion Message :=
  if bool_decide (data = "{}"%string) then Normal (other_action "undefined")
  else Throw "SyntaxError: Unexpected token".

(** The players the loop of [render] draws, entry by entry. *)
Definition renderPlayers (this : t) (entries : list (string * Player.t))
    (c : Canvas.Context2D) : Canvas.Context2D :=
  foldr (λ entry acc, renderPlayer this entry.2 acc) c entries.

(** The surface once [render] has cleared it and drawn the background. *)
Definition background (this : t) (image : Image) : Canvas.Context2D :=
  Canvas.drawImageCrop image (viewportX this) (viewportY this)
    (inject_Z (canvas_width this)) (inject_Z (canvas_height this))
    0 0 (inject_Z (canvas_width this)) (inject_Z (canvas_height this))
    (Canvas.clearRect 0 0 (inject_Z (canvas_width this))
       (inject_Z (canvas_height this)) (ctx this)).

(** The payload of the join example of the specification. *)
Definition p1_record : Player.t := Player.mk "p1" "Olutobi" 100 100 "south" 0 "a1".

(** Two points of the surface with equal coordinates. *)
Definition same_point (p q : Q * Q) : Prop := fst p == fst q ∧ snd p == snd q.

(** Where a [drawImage] call puts the point of the image at the relative
    position [(u, v)], with [(0, 0)] its top-left and [(1, 1)] its
    bottom-right corner. *)
Definition placement (op : Canvas.DrawOp) (u v : Q) : option (Q * Q) :=
  match op with
  | Canvas.DrawImage s _ dx dy dw dh =>
      Some (Canvas.apply (Canvas.transform s) (dx + u * dw, dy + v * dh))
  | _ => None
  end.

Definition lands_at (op : Canvas.DrawOp) (u v : Q) (p : Q * Q) : Prop :=
  match placement op u v with
  | Some q => same_point q p
  | None => False
  end.

(** The image a [drawImage] call paints. *)
Definition painted_image (op : Canvas.DrawOp) : option Image :=
  match op with
  | Canvas.DrawImage _ img _ _ _ _ => Some img
  | Canvas.DrawImageCrop _ img _ _ _ _ _ _ _ _ => Some img
  | _ => None
  end.

(** The points of the surface a [drawImage] call covers. *)
Definition footprint (op : Canvas.DrawOp) (p : Q * Q) : Prop :=
  ∃ u v : Q, 0 <= u ∧ u <= 1 ∧ 0 <= v ∧ v <= 1 ∧ lands_at op u v p.

(** The 32 x 32 square centred on [(x, y)]. *)
Definition avatar_square (x y : Q) (p : Q * Q) : Prop :=
  x - 16 <= fst p ∧ fst p <= x + 16 ∧ y - 16 <= snd p ∧ snd p <= y + 16.

(** The drawing state in which [draw] paints a mirrored frame. *)
Definition flipped (s : Canvas.DrawState) : Canvas.DrawState :=
  Canvas.current (Canvas.scale (-1) 1 (Canvas.mkContext s [] [])).

(** An avatar with two east frames and one south frame, as the server
    defines it. *)
Definition sample_definition : AvatarData :=
  mkAvatarData "a1"
    {[ "east"%string := ["east-0"; "east-1"]%string;
       "south"%string := ["south-0"%string] ]}.

(** The same avatar once its first east frame has arrived. *)
Definition sample_avatar : Avatar.t :=
  Avatar.onload "east" 0 (Avatar.new sample_definition).

(** A client that received a successful join response (one player, "p1",
    with the sample avatar) right after construction, before the world image
    has loaded. *)
Definition early_client : t :=
  handleMessage
    (join_game true "p1" {[ "p1"%string := p1_record ]}
       {[ "a1"%string := sample_definition ]} "")
    (new 800 600).

(** The drawing state in which [drawPlayer] writes a name label. *)
Definition label_state : Canvas.DrawState :=
  Canvas.mkDrawState Canvas.identity "white" "black" 2 "12px Arial" "center".

(** ** Vocabulary of the further properties *)

(** The [onload] handlers of a list of frames, given by direction and index,
    run one after the other. *)
Definition loadAll (events : list (string * nat)) (avatar : Avatar.t) : Avatar.t :=
  foldl (λ acc event, Avatar.onload event.1 event.2 acc) avatar events.

(** No frame of the avatar has loaded. *)
Definition blank (avatar : Avatar.t) : Prop :=
  ∀ (direction : string) (animationFrame : Z),
    Avatar.lookupFrame avatar direction animationFrame = None.

(** The player stands within 50 units of the canvas, as [render] tests it. *)
Definition on_screen (this : t) (player : Player.t) : Prop :=
  -50 <= Player.x player - viewportX this
  ∧ Player.x player - viewportX this <= inject_Z (canvas_width this) + 50
  ∧ -50 <= Player.y player - viewportY this
  ∧ Player.y player - viewportY this <= inject_Z (canvas_height this) + 50.

(** The drawing state in which [drawPlayer] writes a label on a context whose
    current state is [s]. *)
Definition label_style (s : Canvas.DrawState) : Canvas.DrawState :=
  Canvas.mkDrawState (Canvas.transform s) "white" "black" 2 "12px Arial" "center".

(** The two calls that write a name label for the anchor [(x, y)]. *)
Definition label_calls (s : Canvas.DrawState) (username : string) (x y : Q)
  : list Canvas.DrawOp :=
  [ Canvas.StrokeText (label_style s) username x (y - 25);
    Canvas.FillText (label_style s) username x (y - 25) ].

(** A call that writes text. *)
Definition text_call (op : Canvas.DrawOp) : bool :=
  match op with
  | Canvas.StrokeText _ _ _ _ | Canvas.FillText _ _ _ _ => true
  | _ => false
  end.

(** A call issued for a player: an avatar frame or a piece of its label. *)
Definition player_call (op : Canvas.DrawOp) : bool :=
  match op with
  | Canvas.DrawImage _ _ _ _ _ _ => true
  | _ => text_call op
  end.

(** The part of the client no inbound message touches: canvas size, world
    image, world size, and the drawing state and stack of saved states of the
    context. *)
Definition environment (this : t)
  : Z * Z * option Image * Q * Q * Canvas.DrawState * list Canvas.DrawState :=
  (canvas_width this, canvas_height this, worldImage this, worldWidth this,
   worldHeight this, Canvas.current (ctx this), Canvas.saved (ctx this)).

(** The messages of a list handled one after the other. *)
Definition handleMessages (messages : list Message) (this : t) : t :=
  foldl (λ acc message, handleMessage message acc) this messages.

(** The payloads of a list received one after the other. *)
Definition receive (JSON_parse : string → Completion Message)
    (payloads : list string) (this : t) : t :=
  foldl (λ acc data, onmessage JSON_parse data acc) this payloads.

(** The viewport is the one [updateViewport] computes from the record of the
    local player, whenever that player is known. *)
Definition viewport_follows (this : t) : Prop :=
  ∀ (pid : string) (player : Player.t),
    playerId this = Some pid → truthy pid = true →
    players this !! pid = Some player →
    viewportX this
    = Math.max 0 (Math.min (worldWidth this - inject_Z (canvas_width this))
                           (Player.x player - inject_Z (canvas_width this) / 2))
    ∧ viewportY this
      = Math.max 0 (Math.min (worldHeight this - inject_Z (canvas_height this))
                             (Player.y player - inject_Z (canvas_height this) / 2)).




(** A client whose local player "p1" stands at (1000, 1000), far from every
    edge of the world. *)
Definition inland_client : t :=
  set_players {[ "p1"%string := Player.mk "p1" "Olutobi" 1000 1000 "west" 0 "a1" ]}
    (set_playerId (Some "p1"%string) (new 800 600)).

(** A client that knows the sample avatar, its first east frame loaded. *)
Definition avatar_client : t :=
  set_avatars {[ "a1"%string := sample_avatar ]} (new 800 600).

(** * Properties *)

(** ** Auxiliary facts about the loops over dictionaries *)

(** [Object.assign] keeps the entries of the source and, for the other keys,
    those of the target. *)
Lemma Object_assign_union {V : Type} (target source : gmap string V) :
  Object_assign target source = source ∪ target.
Proof.
  unfold Object_assign.
  apply (map_fold_weak_ind (λ acc m, acc = m ∪ target)).
  - by rewrite (left_id_L ∅ (∪)).
  - intros key value m acc Hfresh ->. by rewrite insert_union_l.
Qed.


(** Field-by-field description of a client, to compare two of them. *)
Lemma client_eta (this : t) :
  this = mk (canvas_width this) (canvas_height this) (ctx this) (worldImage this)
            (worldWidth this) (worldHeight this) (playerId this) (players this)
            (avatars this) (viewportX this) (viewportY this) (console this).
Proof. by destruct this. Qed.

(** [render] only touches the drawing context. *)
Lemma render_frame (this : t) : render this = set_ctx (ctx (render this)) this.
Proof.
  unfold render. destruct (worldImage this); [reflexivity|].
  unfold set_ctx. apply client_eta.
Qed.

(** Without a world image object [render] returns at once. *)
Lemma render_without_image (this : t) : worldImage this = None → render this = this.
Proof. intros H. unfold render. by rewrite H. Qed.

(** The loop of the join handler builds one avatar per definition, under the
    key of the definition, and touches nothing else. *)
Lemma join_avatars_loop (definitions : gmap string AvatarData) (this : t) :
  map_fold (λ avatarName avatarData acc,
              set_avatars (<[avatarName := Avatar.new avatarData]> (avatars acc)) acc)
           (set_avatars ∅ this) definitions
  = set_avatars (Avatar.new <$> definitions) this.
Proof.
  apply (map_fold_weak_ind (λ acc m, acc = set_avatars (Avatar.new <$> m) this)).
  - by rewrite fmap_empty.
  - intros avatarName avatarData m acc Hfresh ->.
    by rewrite fmap_insert.
Qed.

(** ** The viewport *)

(** The expression of [updateViewport] agrees with the clamp. *)
Lemma max_min_clamp (world viewport focal : Q) :
  Math.max 0 (Math.min (world - viewport) (focal - viewport / 2))
  == clamp (focal - viewport / 2) 0 (Qmax 0 (world - viewport)).
Proof.
  unfold Math.max, Math.min, clamp.
  set (room := world - viewport). set (wanted := focal - viewport / 2).
  destruct (Q.min_spec room wanted) as [[Hlt Hmin]|[Hle Hmin]];
    destruct (Q.max_spec 0 (Qmin room wanted)) as [[? Hmax]|[? Hmax]];
    destruct (Q.max_spec 0 room) as [[? Hroom]|[? Hroom]];
    rewrite Hmax; repeat destruct Qlt_le_dec; lra.
Qed.

(** What [updateViewport] stores when the local player is known. *)
Lemma updateViewport_known (this : t) (pid : string) (player : Player.t) :
  playerId this = Some pid → truthy pid = true → players this !! pid = Some player →
  updateViewport this =
  set_viewportY
    (Math.max 0 (Math.min (worldHeight this - inject_Z (canvas_height this))
                          (Player.y player - inject_Z (canvas_height this) / 2)))
    (set_viewportX
       (Math.max 0 (Math.min (worldWidth this - inject_Z (canvas_width this))
                             (Player.x player - inject_Z (canvas_width this) / 2)))
       this).
Proof. intros Hid Htruthy Hplayer. unfold updateViewport. by rewrite Hid, Htruthy, Hplayer. Qed.

(** C1.  With the local player as focal point, the canvas size as viewport
    size and [worldWidth] x [worldHeight] as world size, [updateViewport]
    stores on each axis clamp(focal - viewport/2, 0, max(0, world - viewport)).
    On an axis where the world is at least as large as the viewport the
    origin lies between 0 and world - viewport; on an axis where the viewport
    is larger than the world the origin is 0; and in a 2048 x 2048 world with
    an 800 x 600 viewport and the focal point (1900, 50) the origin is
    (1248, 0). *)
Theorem updateViewport_clamps_to_world (this : t) (pid : string) (player : Player.t) :
  playerId this = Some pid → truthy pid = true → players this !! pid = Some player →
  let focalX := Player.x player in
  let focalY := Player.y player in
  let viewportW := inject_Z (canvas_width this) in
  let viewportH := inject_Z (canvas_height this) in
  let worldW := worldWidth this in
  let worldH := worldHeight this in
  let vx := viewportX (updateViewport this) in
  let vy := viewportY (updateViewport this) in
  vx == fst (spec_computeViewport focalX focalY viewportW viewportH worldW worldH)
  ∧ vy == snd (spec_computeViewport focalX focalY viewportW viewportH worldW worldH)
  ∧ (viewportW <= worldW → 0 <= vx ∧ vx <= worldW - viewportW)
  ∧ (viewportH <= worldH → 0 <= vy ∧ vy <= worldH - viewportH)
  ∧ (worldW < viewportW → vx == 0)
  ∧ (worldH < viewportH → vy == 0)
  ∧ (worldW == 2048 → worldH == 2048 → viewportW == 800 → viewportH == 600 →
     focalX == 1900 → focalY == 50 → vx == 1248 ∧ vy == 0).
Proof.
  intros Hid Htruthy Hplayer. cbv zeta.
  rewrite (updateViewport_known this pid player Hid Htruthy Hplayer).
  cbn [viewportX viewportY set_viewportX set_viewportY
       worldWidth worldHeight canvas_width canvas_height].
  rewrite !max_min_clamp. cbn [spec_computeViewport fst snd].
  split; [reflexivity|]. split; [reflexivity|].
  unfold clamp.
  destruct (Q.max_spec 0 (worldWidth this - inject_Z (canvas_width this)))
    as [[? ?]|[? ?]];
  destruct (Q.max_spec 0 (worldHeight this - inject_Z (canvas_height this)))
    as [[? ?]|[? ?]];
  unfold Qdiv in *; change (/ 2) with (1 # 2) in *;
  repeat split; intros; repeat destruct Qlt_le_dec; lra.
Qed.

(** The hypotheses of C1 hold in [corner_client], where the theorem yields
    the origin (1248, 0). *)
Lemma updateViewport_clamps_to_world_witness :
  viewportX (updateViewport corner_client) == 1248
  ∧ viewportY (updateViewport corner_client) == 0.
Proof.
  apply (updateViewport_clamps_to_world corner_client "p1"
           (Player.mk "p1" "Olutobi" 1900 50 "south" 0 "a1"));
    reflexivity.
Defined.



(** ** The session state and the events that change it *)

Lemma render_session (this : t) : session (render this) = session this.
Proof. by rewrite render_frame. Qed.

Lemma render_players (this : t) : players (render this) = players this.
Proof. by rewrite render_frame. Qed.

(** [updateViewport] reads neither the context nor the console and writes
    only the viewport. *)
Lemma updateViewport_players (this : t) : players (updateViewport this) = players this.
Proof.
  unfold updateViewport.
  destruct (playerId this) as [pid|]; [|done].
  destruct (truthy pid); [|done].
  by destruct (players this !! pid).
Qed.

Lemma updateViewport_playerId (this : t) : playerId (updateViewport this) = playerId this.
Proof.
  unfold updateViewport.
  destruct (playerId this) as [pid|] eqn:E; [|done].
  destruct (truthy pid); [|done].
  by destruct (players this !! pid).
Qed.

Lemma updateViewport_avatars (this : t) : avatars (updateViewport this) = avatars this.
Proof.
  unfold updateViewport.
  destruct (playerId this) as [pid|]; [|done].
  destruct (truthy pid); [|done].
  by destruct (players this !! pid).
Qed.

Lemma updateViewport_set_ctx (c : Canvas.Context2D) (this : t) :
  updateViewport (set_ctx c this) = set_ctx c (updateViewport this).
Proof.
  unfold updateViewport. cbn [playerId players set_ctx].
  destruct (playerId this) as [pid|]; [|done].
  destruct (truthy pid); [|done].
  by destruct (players this !! pid).
Qed.

(** Recomputing the viewport a second time changes nothing. *)
Lemma updateViewport_idempotent (this : t) :
  updateViewport (updateViewport this) = updateViewport this.
Proof.
  destruct (playerId this) as [pid|] eqn:Hid.
  - destruct (truthy pid) eqn:Htruthy.
    + destruct (players this !! pid) as [player|] eqn:Hplayer.
      * rewrite (updateViewport_known this pid player Hid Htruthy Hplayer).
        by erewrite updateViewport_known.
      * unfold updateViewport at 2. rewrite Hid, Htruthy, Hplayer.
        unfold updateViewport. by rewrite Hid, Htruthy, Hplayer.
    + unfold updateViewport at 2. rewrite Hid, Htruthy.
      unfold updateViewport. by rewrite Hid, Htruthy.
  - unfold updateViewport at 2. rewrite Hid.
    unfold updateViewport. by rewrite Hid.
Qed.


(** C3.  Applying the same [players_moved] payload twice leaves the same
    session state (player mapping, local player id, avatar mapping and
    viewport) as applying it once. *)
Theorem players_moved_idempotent (this : t) (moved : gmap string Player.t) :
  session (handleMessage (players_moved moved) (handleMessage (players_moved moved) this))
  = session (handleMessage (players_moved moved) this).
Proof.
  cbn [handleMessage].
  set (once := updateViewport (set_players (Object_assign (players this) moved) this)).
  rewrite !render_session.
  assert (Object_assign (players (render once)) moved = players once) as ->.
  { rewrite render_players. unfold once.
    rewrite updateViewport_players. cbn [players set_players].
    rewrite !Object_assign_union.
    by rewrite (assoc_L (∪)), (idemp_L (∪)). }
  assert (updateViewport (set_players (players once) (render once))
          = set_ctx (ctx (render once)) once) as ->; [|done].
  rewrite (render_frame once) at 1.
  assert (set_players (players once) (set_ctx (ctx (render once)) once)
          = set_ctx (ctx (render once)) once) as -> by (by destruct once).
  rewrite updateViewport_set_ctx.
  unfold once at 2. by rewrite updateViewport_idempotent.
Qed.

(** ** Decoding failures *)

(** C4.  When [JSON.parse] throws on the payload of an inbound message, the
    handler catches the error and logs it, and the session state (local
    player id, player mapping, avatar mapping, viewport) is exactly what it
    was; so are the drawing context and the world image.  [onmessage] itself
    returns normally: its whole body is the [try] block. *)
Theorem onmessage_malformed_payload
    (JSON_parse : string → Completion Message) (data error : string) (this : t) :
  JSON_parse data = Throw error →
  let this' := onmessage JSON_parse data this in
  console this' = console this ++ [console_error ["Error parsing message:"; error]%string]
  ∧ session this' = session this
  ∧ playerId this' = playerId this
  ∧ players this' = players this
  ∧ avatars this' = avatars this
  ∧ viewportX this' = viewportX this
  ∧ viewportY this' = viewportY this
  ∧ ctx this' = ctx this
  ∧ worldImage this' = worldImage this.
Proof.
  intros Hthrow. unfold onmessage. rewrite Hthrow. cbn.
  repeat split.
Qed.

(** C4 on the payload "{oops" sent to a freshly constructed client. *)
Lemma onmessage_malformed_payload_witness :
  session (onmessage sample_parse "{oops" (new 800 600)) = session (new 800 600).
Proof.
  apply (onmessage_malformed_payload sample_parse "{oops"
           "SyntaxError: Unexpected token" (new 800 600)).
  reflexivity.
Defined.

(** ** The join response *)

(** A new avatar has, for every direction of its definition, an array of
    loaded images that is still empty. *)
Lemma Avatar_new_loadedImages (avatarData : AvatarData) :
  Avatar.loadedImages (Avatar.new avatarData)
  = (λ _, @nil (option Image)) <$> data_frames avatarData.
Proof.
  unfold Avatar.new, Avatar.loadImages. cbn [Avatar.loadedImages Avatar.frames].
  apply (map_fold_weak_ind (λ acc m, acc = (λ _, @nil (option Image)) <$> m)).
  - by rewrite fmap_empty.
  - intros direction sources m acc Hfresh ->. by rewrite fmap_insert.
Qed.

(** The three mappings after a successful join response. *)
Lemma join_game_success (this : t) (pid : string)
    (snapshot : gmap string Player.t) (definitions : gmap string AvatarData)
    (error : string) :
  let this' := handleMessage (join_game true pid snapshot definitions error) this in
  playerId this' = Some pid
  ∧ players this' = snapshot
  ∧ avatars this' = Avatar.new <$> definitions.
Proof.
  cbn [handleMessage].
  set (joined := set_players snapshot (set_playerId (Some pid) this)).
  rewrite (join_avatars_loop definitions joined).
  set (ready := updateViewport (set_avatars (Avatar.new <$> definitions) joined)).
  assert (playerId ready = Some pid) as Hid
    by (unfold ready; by rewrite updateViewport_playerId).
  assert (players ready = snapshot) as Hplayers
    by (unfold ready; by rewrite updateViewport_players).
  assert (avatars ready = Avatar.new <$> definitions) as Havatars
    by (unfold ready; by rewrite updateViewport_avatars).
  pose proof (render_session ready) as Hsession. unfold session in Hsession.
  cbn [log playerId players avatars].
  repeat split; congruence.
Qed.


(** ** Departures *)

(** A render pass draws one entry after the other of the player mapping. *)
Lemma render_entries (this : t) (image : Image) :
  worldImage this = Some image →
  ctx (render this)
  = renderPlayers this (map_to_list (players this)) (background this image).
Proof.
  intros Himage. unfold render. rewrite Himage. cbn [ctx set_ctx].
  rewrite map_fold_foldr. fold (background this image).
  unfold renderPlayers.
  induction (map_to_list (players this)) as [|[pid player] entries IH];
    cbn; [done|by rewrite IH].
Qed.

(** A render pass iterates over no entry for an id that is not a key of the
    player mapping. *)
Lemma absent_not_iterated (ps : gmap string Player.t) (pid : string) :
  ps !! pid = None → pid ∉ (map_to_list ps).*1.
Proof.
  intros Habsent ([key player] & -> & Hin)%list_elem_of_fmap.
  apply elem_of_map_to_list in Hin. cbn in Habsent. congruence.
Qed.

(** C9.  After [player_left] for id [X], [X] is not a key of the player
    mapping and every other entry is what it was.  The frame rendered by the
    handler, and the frame of any later render pass on a state where [X] is
    still absent, is painted by iterating over the entries of the mapping,
    none of which is [X]'s; the state left by the handler (frame included) is
    the same whatever record [X] had.  A join snapshot holding only [X],
    followed by [player_left] for [X], leaves the empty mapping. *)
Theorem player_left_removes_player (this : t) (X : string) :
  let this' := handleMessage (player_left X) this in
  players this' !! X = None
  ∧ (∀ pid : string,
       players this' !! pid = if decide (X = pid) then None else players this !! pid)
  ∧ (∀ record : Player.t,
       handleMessage (player_left X)
         (set_players (<[X := record]> (players this)) this) = this')
  ∧ (∀ image : Image, worldImage this = Some image →
       let removed := set_players (delete X (players this)) this in
       (X ∉ (map_to_list (players removed)).*1)
       ∧ ctx this'
         = renderPlayers removed (map_to_list (players removed))
             (background removed image))
  ∧ (∀ (later : t) (image : Image),
       players later !! X = None → worldImage later = Some image →
       (X ∉ (map_to_list (players later)).*1)
       ∧ ctx (render later)
         = renderPlayers later (map_to_list (players later)) (background later image))
  ∧ (∀ (pid : string) (record : Player.t) (definitions : gmap string AvatarData)
       (error : string),
       players (handleMessage (player_left X)
                  (handleMessage (join_game true pid {[ X := record ]} definitions error)
                     this)) = ∅).
Proof.
  cbn [handleMessage].
  split; [|split; [|split; [|split; [|split]]]].
  - rewrite render_players. apply lookup_delete_eq.
  - intros pid. rewrite render_players. apply lookup_delete.
  - intros record. cbn [players set_players].
    rewrite delete_insert_eq. by destruct this.
  - intros image Himage. cbn zeta. split.
    + apply absent_not_iterated. apply lookup_delete_eq.
    + by apply render_entries.
  - intros later image Habsent Himage. split.
    + by apply absent_not_iterated.
    + by apply render_entries.
  - intros pid record definitions error.
    pose proof (join_game_success this pid {[ X := record ]} definitions error)
      as (_ & Hsnapshot & _).
    rewrite render_players. cbn [players set_players].
    cbn [handleMessage] in Hsnapshot. rewrite Hsnapshot.
    apply delete_singleton_eq.
Qed.

(** C9 on the example of the specification: a join whose snapshot holds only
    "p1", then [player_left] for "p1"; the later render pass considered is
    the one of the resulting state. *)
Lemma player_left_removes_player_witness :
  players (handleMessage (player_left "p1")
             (handleMessage (join_game true "p1" {[ "p1"%string := p1_record ]} ∅ "")
                (new 800 600))) = ∅
  ∧ "p1"%string ∉ (map_to_list (players (new 800 600))).*1.
Proof.
  pose proof (player_left_removes_player (new 800 600) "p1")
    as (_ & _ & _ & _ & Hlater & Hexample).
  split.
  - apply Hexample.
  - apply (Hlater (new 800 600) (mkImage "world.jpg" false)); reflexivity.
Defined.

(** ** Drawing an avatar frame *)

(** What [draw] does when the frame is there: one [drawImage] call between
    [save] and [restore]. *)
Lemma draw_present (avatar : Avatar.t) (c : Canvas.Context2D) (x y : Q)
    (facing : string) (animationFrame : Z) (isWest : bool) (frame : Image) :
  Avatar.lookupFrame avatar (if isWest then "east"%string else facing) animationFrame
  = Some frame →
  Avatar.draw avatar c x y facing animationFrame isWest
  = Canvas.mkContext (Canvas.current c) (Canvas.saved c)
      (Canvas.calls c ++
         [if isWest
          then Canvas.DrawImage (flipped (Canvas.current c)) frame
                 (- x - 32 / 2) (y - 32 / 2) 32 32
          else Canvas.DrawImage (Canvas.current c) frame
                 (x - 32 / 2) (y - 32 / 2) 32 32]).
Proof.
  intros Hframe. unfold Avatar.draw. rewrite Hframe.
  by destruct isWest.
Qed.

(** What [draw] does when the frame is not there. *)
Lemma draw_absent (avatar : Avatar.t) (c : Canvas.Context2D) (x y : Q)
    (facing : string) (animationFrame : Z) (isWest : bool) :
  Avatar.lookupFrame avatar (if isWest then "east"%string else facing) animationFrame
  = None →
  Avatar.draw avatar c x y facing animationFrame isWest = c.
Proof. intros Hframe. unfold Avatar.draw. by rewrite Hframe. Qed.

(** Under the identity transform the plain call covers the square centred on
    the draw point, left edge of the image on the left. *)
Lemma plain_placement (s : Canvas.DrawState) (frame : Image) (x y u v : Q) :
  Canvas.transform s = Canvas.identity →
  lands_at (Canvas.DrawImage s frame (x - 32 / 2) (y - 32 / 2) 32 32) u v
           (x - 16 + 32 * u, y - 16 + 32 * v).
Proof.
  intros Hid. unfold lands_at, placement, same_point, Canvas.apply. rewrite Hid.
  cbn. split; field.
Qed.

(** Under the identity transform the mirrored call covers the same square,
    left edge of the image on the right. *)
Lemma mirrored_placement (s : Canvas.DrawState) (frame : Image) (x y u v : Q) :
  Canvas.transform s = Canvas.identity →
  lands_at (Canvas.DrawImage (flipped s) frame (- x - 32 / 2) (y - 32 / 2) 32 32) u v
           (x + 16 - 32 * u, y - 16 + 32 * v).
Proof.
  intros Hid. unfold lands_at, placement, same_point, Canvas.apply, flipped.
  cbn. rewrite Hid. cbn. split; field.
Qed.

Lemma lands_at_unique (op : Canvas.DrawOp) (u v : Q) (p q : Q * Q) :
  lands_at op u v p → lands_at op u v q → same_point p q.
Proof.
  unfold lands_at. destruct (placement op u v) as [r|]; [|done].
  unfold same_point. intros [Hp1 Hp2] [Hq1 Hq2].
  split; [by rewrite <- Hp1|by rewrite <- Hp2].
Qed.

Lemma lands_at_same_point (op : Canvas.DrawOp) (u v : Q) (p q : Q * Q) :
  lands_at op u v p → same_point p q → lands_at op u v q.
Proof.
  unfold lands_at. destruct (placement op u v) as [r|]; [|done].
  unfold same_point. intros [Hp1 Hp2] [Hq1 Hq2].
  split; [by rewrite Hp1|by rewrite Hp2].
Qed.

Lemma plain_footprint (s : Canvas.DrawState) (frame : Image) (x y : Q) (p : Q * Q) :
  Canvas.transform s = Canvas.identity →
  footprint (Canvas.DrawImage s frame (x - 32 / 2) (y - 32 / 2) 32 32) p
  ↔ avatar_square x y p.
Proof.
  intros Hid. unfold footprint, avatar_square. split.
  - intros (u & v & Hu0 & Hu1 & Hv0 & Hv1 & Hlands).
    destruct (lands_at_unique _ _ _ _ _ Hlands (plain_placement s frame x y u v Hid))
      as [Hx Hy].
    cbn [fst snd] in Hx, Hy. lra.
  - intros (Hx0 & Hx1 & Hy0 & Hy1).
    exists ((fst p - (x - 16)) * (1 # 32)), ((snd p - (y - 16)) * (1 # 32)).
    do 4 (split; [lra|]).
    eapply lands_at_same_point; [by apply plain_placement|].
    split; cbn [fst snd]; lra.
Qed.

Lemma mirrored_footprint (s : Canvas.DrawState) (frame : Image) (x y : Q) (p : Q * Q) :
  Canvas.transform s = Canvas.identity →
  footprint (Canvas.DrawImage (flipped s) frame (- x - 32 / 2) (y - 32 / 2) 32 32) p
  ↔ avatar_square x y p.
Proof.
  intros Hid. unfold footprint, avatar_square. split.
  - intros (u & v & Hu0 & Hu1 & Hv0 & Hv1 & Hlands).
    destruct (lands_at_unique _ _ _ _ _ Hlands (mirrored_placement s frame x y u v Hid))
      as [Hx Hy].
    cbn [fst snd] in Hx, Hy. lra.
  - intros (Hx0 & Hx1 & Hy0 & Hy1).
    exists ((x + 16 - fst p) * (1 # 32)), ((snd p - (y - 16)) * (1 # 32)).
    do 4 (split; [lra|]).
    eapply lands_at_same_point; [by apply mirrored_placement|].
    split; cbn [fst snd]; lra.
Qed.

(** [draw] leaves the drawing state and the stack of saved states as it
    found them, whether it paints or not. *)
Lemma draw_keeps_state (avatar : Avatar.t) (c : Canvas.Context2D) (x y : Q)
    (facing : string) (animationFrame : Z) (isWest : bool) :
  Canvas.current (Avatar.draw avatar c x y facing animationFrame isWest)
  = Canvas.current c
  ∧ Canvas.saved (Avatar.draw avatar c x y facing animationFrame isWest)
    = Canvas.saved c.
Proof.
  destruct (Avatar.lookupFrame avatar (if isWest then "east"%string else facing)
              animationFrame) as [frame|] eqn:Hframe.
  - by rewrite (draw_present _ _ _ _ _ _ _ _ Hframe).
  - by rewrite (draw_absent _ _ _ _ _ _ _ Hframe).
Qed.

Lemma drawPlayer_keeps_state (this : t) (player : Player.t) (x y : Q)
    (c : Canvas.Context2D) :
  Canvas.current (drawPlayer this player x y c) = Canvas.current c
  ∧ Canvas.saved (drawPlayer this player x y c) = Canvas.saved c.
Proof.
  unfold drawPlayer.
  destruct (avatars this !! Player.avatar player) as [avatar|]; [|done].
  destruct (draw_keeps_state avatar c x y (Player.facing player)
              (Player.animationFrame player)
              (bool_decide (Player.facing player = "west"%string)))
    as [Hcurrent Hsaved].
  destruct (Avatar.draw _ _ _ _ _ _ _) as [current saved calls].
  cbn in *. by subst.
Qed.

(** A render pass leaves the drawing state as it found it: a context that
    starts with the identity transform, as [Canvas.fresh] does, still has it
    at every later call of [draw]. *)
Lemma render_keeps_state (this : t) :
  Canvas.current (ctx (render this)) = Canvas.current (ctx this)
  ∧ Canvas.saved (ctx (render this)) = Canvas.saved (ctx this).
Proof.
  unfold render. destruct (worldImage this) as [image|]; [|done].
  cbn [ctx set_ctx].
  apply (map_fold_weak_ind (λ acc _,
           Canvas.current acc = Canvas.current (ctx this)
           ∧ Canvas.saved acc = Canvas.saved (ctx this))); [done|].
  intros pid player m acc Hfresh [Hcurrent Hsaved].
  unfold renderPlayer.
  destruct (_ && _); [|done].
  destruct (drawPlayer_keeps_state this player
              (worldToCanvas this (Player.x player) (Player.y player)).1
              (worldToCanvas this (Player.x player) (Player.y player)).2 acc)
    as [-> ->].
  done.
Qed.

(** C7.  Let the frame at [animationFrame] of the east set be loaded and let
    the context carry the identity transform, which a fresh context has and
    every render pass preserves.  Whatever [facing] is, the mirrored draw at [(x, y)] paints that
    east frame with one [drawImage] call, as the plain east-facing draw does;
    both calls cover exactly the 32 x 32 square centred on [(x, y)]; each
    point of the image lands, in the mirrored draw, on the reflection about
    the vertical line through [x] of the place where the plain draw puts it;
    and the flip is undone when [draw] returns. *)
Theorem mirrored_draw_flips_about_draw_point (avatar : Avatar.t)
    (c : Canvas.Context2D) (x y : Q) (facing : string) (animationFrame : Z)
    (frame : Image) :
  Avatar.lookupFrame avatar "east" animationFrame = Some frame →
  Canvas.transform (Canvas.current c) = Canvas.identity →
  ∃ mirrored plain : Canvas.DrawOp,
    Canvas.calls (Avatar.draw avatar c x y facing animationFrame true)
    = Canvas.calls c ++ [mirrored]
    ∧ Canvas.calls (Avatar.draw avatar c x y "east" animationFrame false)
      = Canvas.calls c ++ [plain]
    ∧ painted_image mirrored = Some frame
    ∧ painted_image plain = Some frame
    ∧ (∀ p : Q * Q, footprint mirrored p ↔ avatar_square x y p)
    ∧ (∀ p : Q * Q, footprint plain p ↔ avatar_square x y p)
    ∧ (∀ (u v : Q) (p : Q * Q),
         lands_at plain u v p → lands_at mirrored u v (2 * x - fst p, snd p))
    ∧ Canvas.current (Avatar.draw avatar c x y facing animationFrame true)
      = Canvas.current c
    ∧ Canvas.saved (Avatar.draw avatar c x y facing animationFrame true)
      = Canvas.saved c.
Proof.
  intros Hframe Hid.
  rewrite (draw_present avatar c x y facing animationFrame true frame Hframe).
  rewrite (draw_present avatar c x y "east" animationFrame false frame Hframe).
  eexists _, _. cbn [Canvas.calls Canvas.current Canvas.saved].
  split; [reflexivity|]. split; [reflexivity|].
  split; [reflexivity|]. split; [reflexivity|].
  split; [intros p; by apply mirrored_footprint|].
  split; [intros p; by apply plain_footprint|].
  split; [|done].
  intros u v p Hplain.
  destruct (lands_at_unique _ _ _ _ _ Hplain
              (plain_placement (Canvas.current c) frame x y u v Hid)) as [Hx Hy].
  cbn [fst snd] in Hx, Hy.
  eapply lands_at_same_point; [by apply mirrored_placement|].
  split; cbn [fst snd]; lra.
Qed.

(** C7 on [sample_avatar], drawn facing west at (100, 100) on a fresh
    context. *)
Lemma mirrored_draw_flips_about_draw_point_witness :
  ∃ mirrored : Canvas.DrawOp,
    Canvas.calls (Avatar.draw sample_avatar Canvas.fresh 100 100 "west" 0 true)
    = [mirrored]
    ∧ ∀ p : Q * Q, footprint mirrored p ↔ avatar_square 100 100 p.
Proof.
  destruct (mirrored_draw_flips_about_draw_point sample_avatar Canvas.fresh
              100 100 "west" 0 (mkImage "east-0" true))
    as (mirrored & plain & Hcalls & _ & _ & _ & Hsquare & _).
  - reflexivity.
  - reflexivity.
  - exists mirrored. split; [exact Hcalls|exact Hsquare].
Defined.

(** When the looked-up frame is [undefined]: the facing has no array of
    loaded images, or the index lies outside the array, or the slot is still
    a hole. *)
Lemma lookupFrame_None (avatar : Avatar.t) (direction : string) (animationFrame : Z) :
  Avatar.lookupFrame avatar direction animationFrame = None
  ↔ Avatar.loadedImages avatar !! direction = None
    ∨ ∃ arr : ImageArray,
        Avatar.loadedImages avatar !! direction = Some arr
        ∧ ((animationFrame < 0)%Z
           ∨ (length arr ≤ Z.to_nat animationFrame)%nat
           ∨ arr !! Z.to_nat animationFrame = Some None).
Proof.
  unfold Avatar.lookupFrame, array_get.
  destruct (Avatar.loadedImages avatar !! direction) as [arr|]; cbn;
    [|split; [by left|done]].
  destruct (Z.leb_spec 0 animationFrame) as [Hpos|Hneg].
  - destruct (arr !! Z.to_nat animationFrame) as [[img|]|] eqn:Hslot; cbn.
    + split; [done|].
      intros [?|(arr' & [= <-] & [?|[Hlen|?]])]; [done|lia| |congruence].
      apply lookup_ge_None_2 in Hlen. congruence.
    + split; [|done]. intros _. right. exists arr. auto.
    + split; [|done]. intros _. right. exists arr. split; [done|].
      right. left. by apply lookup_ge_None.
  - split; [|done]. intros _. right. exists arr. auto.
Qed.

(** C8.  [draw] looks up the frame at [animationFrame] among the loaded
    images of the resolved facing.  The frame is absent exactly when the
    facing key is missing, the index is out of range or the slot has not
    been loaded yet; then [draw] returns the context as it received it: no
    painting call, no change of drawing state, and, [draw] being a total
    function whose lookup is the optional chain of the source, no error.
    When the frame is present, [draw] issues one [drawImage] call for it,
    which under the identity transform covers exactly the 32 x 32 square
    centred on the target point. *)
Theorem draw_tolerates_missing_frame (avatar : Avatar.t) (c : Canvas.Context2D)
    (x y : Q) (facing : string) (animationFrame : Z) (isWest : bool) :
  let direction := if isWest then "east"%string else facing in
  (Avatar.lookupFrame avatar direction animationFrame = None
   ↔ Avatar.loadedImages avatar !! direction = None
     ∨ ∃ arr : ImageArray,
         Avatar.loadedImages avatar !! direction = Some arr
         ∧ ((animationFrame < 0)%Z
            ∨ (length arr ≤ Z.to_nat animationFrame)%nat
            ∨ arr !! Z.to_nat animationFrame = Some None))
  ∧ (Avatar.lookupFrame avatar direction animationFrame = None →
     Avatar.draw avatar c x y facing animationFrame isWest = c)
  ∧ (∀ frame : Image,
       Avatar.lookupFrame avatar direction animationFrame = Some frame →
       Canvas.transform (Canvas.current c) = Canvas.identity →
       ∃ op : Canvas.DrawOp,
         Avatar.draw avatar c x y facing animationFrame isWest
         = Canvas.mkContext (Canvas.current c) (Canvas.saved c) (Canvas.calls c ++ [op])
         ∧ painted_image op = Some frame
         ∧ ∀ p : Q * Q, footprint op p ↔ avatar_square x y p).
Proof.
  cbv zeta. split; [apply lookupFrame_None|]. split.
  - apply draw_absent.
  - intros frame Hframe Hid.
    rewrite (draw_present avatar c x y facing animationFrame isWest frame Hframe).
    eexists. split; [reflexivity|].
    destruct isWest; (split; [reflexivity|]); intros p.
    + by apply mirrored_footprint.
    + by apply plain_footprint.
Qed.

(** C8 on the sample avatar: before any frame has arrived nothing is drawn,
    whatever the facing; once the first east frame is there it is drawn. *)
Lemma draw_tolerates_missing_frame_witness :
  Avatar.draw (Avatar.new sample_definition) Canvas.fresh 100 100 "south" 0 false
  = Canvas.fresh
  ∧ ∃ op : Canvas.DrawOp,
      Avatar.draw sample_avatar Canvas.fresh 100 100 "east" 0 false
      = Canvas.mkContext Canvas.initialState [] [op]
      ∧ painted_image op = Some (mkImage "east-0" true).
Proof.
  split.
  - apply (draw_tolerates_missing_frame (Avatar.new sample_definition) Canvas.fresh
             100 100 "south" 0 false).
    reflexivity.
  - destruct (draw_tolerates_missing_frame sample_avatar Canvas.fresh
                100 100 "east" 0 false) as (_ & _ & Hpresent).
    destruct (Hpresent (mkImage "east-0" true)) as (op & Hdraw & Himage & _).
    + reflexivity.
    + reflexivity.
    + exists op. split; [exact Hdraw|exact Himage].
Defined.

(** ** Rendering and the world image *)

(** C5.  The guard of [render] tests whether [worldImage] holds an image
    object, not whether that image has loaded, and [loadWorldMap] stores the
    object as soon as the client is constructed.  So in a freshly constructed
    client, whose world image has not loaded, a render pass clears the
    surface and issues the background [drawImage]; and the render pass run by
    the join handler before the world image has loaded also writes the label
    of the player. *)
Theorem render_paints_before_world_image_loads :
  worldImage (new 800 600) = Some (mkImage "world.jpg" false)
  ∧ Canvas.calls (ctx (new 800 600)) = []
  ∧ Canvas.calls (ctx (render (new 800 600)))
    = [ Canvas.ClearRect Canvas.initialState 0 0 800 600;
        Canvas.DrawImageCrop Canvas.initialState (mkImage "world.jpg" false)
          0 0 800 600 0 0 800 600 ]
  ∧ worldImage early_client = Some (mkImage "world.jpg" false)
  ∧ Canvas.calls (ctx early_client)
    = [ Canvas.ClearRect Canvas.initialState 0 0 800 600;
        Canvas.DrawImageCrop Canvas.initialState (mkImage "world.jpg" false)
          0 0 800 600 0 0 800 600;
        Canvas.StrokeText label_state "Olutobi" 100 75;
        Canvas.FillText label_state "Olutobi" 100 75 ].
Proof. repeat split; vm_compute; reflexivity. Qed.

(** * Further properties *)

(** ** Frames arriving for an avatar *)

(** Reading a slot of an array after an assignment. *)
Lemma array_set_lookup (arr : ImageArray) (i : nat) (img : Image) (k : nat) :
  array_set arr i img !! k =
  if decide (k = i) then Some (Some img)
  else if decide (k < length arr)%nat then arr !! k
  else if decide (k < i)%nat then Some None
  else None.
Proof.
  unfold array_set. destruct (Nat.ltb_spec i (length arr)) as [Hin|Hout].
  - destruct (decide (k = i)) as [->|Hne].
    + by apply list_lookup_insert_eq.
    + rewrite list_lookup_insert_ne by done.
      repeat case_decide; try done; try lia.
      all: apply lookup_ge_None_2; lia.
  - destruct (decide (k < length arr)%nat) as [Hk|Hk].
    + rewrite decide_False by lia. by rewrite lookup_app_l.
    + rewrite lookup_app_r by lia.
      destruct (decide (k = i)) as [->|Hne].
      * rewrite lookup_app_r by (rewrite length_replicate; lia).
        rewrite length_replicate. by rewrite Nat.sub_diag.
      * destruct (decide (k < i)%nat) as [Hlt|Hge].
        -- rewrite lookup_app_l by (rewrite length_replicate; lia).
           apply lookup_replicate_2. lia.
        -- apply lookup_ge_None_2. rewrite length_app, length_replicate. cbn. lia.
Qed.

Lemma array_set_length (arr : ImageArray) (i : nat) (img : Image) :
  length (array_set arr i img) = (length arr `max` S i)%nat.
Proof.
  unfold array_set. destruct (Nat.ltb_spec i (length arr)).
  - rewrite length_insert. lia.
  - rewrite !length_app, length_replicate. cbn. lia.
Qed.

(** [arr[i] = img] followed by [arr[z]]. *)
Lemma array_get_set (arr : ImageArray) (i : nat) (img : Image) (z : Z) :
  array_get (array_set arr i img) z =
  if decide (z = Z.of_nat i) then Some img else array_get arr z.
Proof.
  unfold array_get. destruct (Z.leb_spec 0 z) as [Hpos|Hneg].
  - rewrite array_set_lookup.
    destruct (decide (z = Z.of_nat i)) as [->|Hne].
    + rewrite Nat2Z.id. by rewrite decide_True.
    + rewrite decide_False by lia.
      repeat case_decide; try done.
      all: by rewrite lookup_ge_None_2 by lia.
  - rewrite decide_False by lia. done.
Qed.

Lemma array_set_commute (arr : ImageArray) (i j : nat) (a b : Image) :
  i ≠ j → array_set (array_set arr i a) j b = array_set (array_set arr j b) i a.
Proof.
  intros Hne. apply list_eq. intros k.
  rewrite !array_set_lookup, !array_set_length.
  repeat case_decide; try done; try lia.
Qed.

(** What [onload] stores when the frame exists and its direction has an
    array. *)
Lemma onload_effective (avatar : Avatar.t) (direction : string) (index : nat)
    (sources : list string) (base64Data : string) (arr : ImageArray) :
  Avatar.frames avatar !! direction = Some sources →
  sources !! index = Some base64Data →
  Avatar.loadedImages avatar !! direction = Some arr →
  Avatar.onload direction index avatar
  = Avatar.mk (Avatar.name avatar) (Avatar.frames avatar)
      (<[direction := array_set arr index (mkImage base64Data true)]>
         (Avatar.loadedImages avatar)).
Proof.
  intros Hd Hi Harr. unfold Avatar.onload. rewrite Hd. cbn. by rewrite Hi, Harr.
Qed.

Lemma onload_lookupFrame (avatar : Avatar.t) (direction : string) (index : nat)
    (sources : list string) (base64Data : string) (arr : ImageArray)
    (direction' : string) (z : Z) :
  Avatar.frames avatar !! direction = Some sources →
  sources !! index = Some base64Data →
  Avatar.loadedImages avatar !! direction = Some arr →
  Avatar.lookupFrame (Avatar.onload direction index avatar) direction' z
  = if decide (direction' = direction ∧ z = Z.of_nat index)
    then Some (mkImage base64Data true)
    else Avatar.lookupFrame avatar direction' z.
Proof.
  intros Hd Hi Harr.
  rewrite (onload_effective avatar direction index sources base64Data arr Hd Hi Harr).
  unfold Avatar.lookupFrame. cbn [Avatar.loadedImages].
  destruct (decide (direction' = direction)) as [->|Hne].
  - rewrite lookup_insert_eq, Harr. cbn. rewrite array_get_set.
    destruct (decide (z = Z.of_nat index)).
    + by rewrite decide_True.
    + rewrite decide_False; [done|]. by intros [_ ?].
  - rewrite lookup_insert_ne by done. rewrite decide_False; [done|]. by intros [? _].
Qed.

(** A new avatar has no frame at all. *)
Lemma new_lookupFrame (avatarData : AvatarData) (direction : string) (z : Z) :
  Avatar.lookupFrame (Avatar.new avatarData) direction z = None.
Proof.
  unfold Avatar.lookupFrame. rewrite Avatar_new_loadedImages, lookup_fmap.
  destruct (data_frames avatarData !! direction); cbn; [|done].
  unfold array_get. destruct (0 <=? z)%Z; [|done].
  by rewrite lookup_nil.
Qed.

Lemma onload_frames (direction : string) (index : nat) (avatar : Avatar.t) :
  Avatar.frames (Avatar.onload direction index avatar) = Avatar.frames avatar
  ∧ Avatar.name (Avatar.onload direction index avatar) = Avatar.name avatar.
Proof.
  unfold Avatar.onload.
  destruct (Avatar.frames avatar !! direction ≫= _); [|done].
  by destruct (Avatar.loadedImages avatar !! direction).
Qed.

Lemma onload_directions (direction : string) (index : nat) (avatar : Avatar.t)
    (direction' : string) :
  Avatar.loadedImages (Avatar.onload direction index avatar) !! direction' = None
  ↔ Avatar.loadedImages avatar !! direction' = None.
Proof.
  unfold Avatar.onload.
  destruct (Avatar.frames avatar !! direction ≫= _); [|done].
  destruct (Avatar.loadedImages avatar !! direction) eqn:Hd; [|done].
  cbn. destruct (decide (direction' = direction)) as [->|Hne].
  - rewrite lookup_insert_eq, Hd. done.
  - by rewrite lookup_insert_ne.
Qed.

Lemma loadAll_snoc (events : list (string * nat)) (direction : string)
    (index : nat) (avatar : Avatar.t) :
  loadAll (events ++ [(direction, index)]) avatar
  = Avatar.onload direction index (loadAll events avatar).
Proof. unfold loadAll. by rewrite foldl_app. Qed.

(** Loads keep the frame sources, and the directions that have an array of
    loaded images are those of the definition. *)
Lemma loadAll_wf (avatarData : AvatarData) (events : list (string * nat)) :
  Avatar.frames (loadAll events (Avatar.new avatarData)) = data_frames avatarData
  ∧ ∀ direction : string,
      Avatar.loadedImages (loadAll events (Avatar.new avatarData)) !! direction = None
      ↔ data_frames avatarData !! direction = None.
Proof.
  induction events as [|[d0 i0] events [IHframes IHdirs]] using rev_ind.
  - split; [done|]. intros direction.
    change (loadAll [] (Avatar.new avatarData)) with (Avatar.new avatarData).
    rewrite Avatar_new_loadedImages, lookup_fmap.
    by destruct (data_frames avatarData !! direction).
  - rewrite loadAll_snoc. split.
    + by rewrite (proj1 (onload_frames d0 i0 _)).
    + intros direction. by rewrite onload_directions.
Qed.

(** X1.  A newly constructed avatar has no loaded frame, whatever the
    direction and the index, so drawing it, mirrored or not, leaves the
    context as it was. *)
Theorem fresh_avatar_draws_nothing (avatarData : AvatarData) (c : Canvas.Context2D)
    (x y : Q) (facing : string) (animationFrame : Z) (isWest : bool) :
  blank (Avatar.new avatarData)
  ∧ Avatar.draw (Avatar.new avatarData) c x y facing animationFrame isWest = c.
Proof.
  split.
  - intros direction index. apply new_lookupFrame.
  - apply draw_absent, new_lookupFrame.
Qed.

(** X2.  When the image of the frame at [index] of [direction] has loaded,
    that frame and no other becomes available: looking up [direction] at
    [index] yields the loaded image of that frame's source, every other
    lookup yields what it did before, and the name and the frame sources of
    the avatar are unchanged.  The frame must be one of the definition and
    its direction must have its array, as [loadImages] arranges. *)
Theorem onload_makes_frame_available (avatar : Avatar.t) (direction : string)
    (index : nat) (sources : list string) (base64Data : string) (arr : ImageArray) :
  Avatar.frames avatar !! direction = Some sources →
  sources !! index = Some base64Data →
  Avatar.loadedImages avatar !! direction = Some arr →
  let avatar' := Avatar.onload direction index avatar in
  (∀ (direction' : string) (z : Z),
     Avatar.lookupFrame avatar' direction' z
     = if decide (direction' = direction ∧ z = Z.of_nat index)
       then Some (mkImage base64Data true)
       else Avatar.lookupFrame avatar direction' z)
  ∧ Avatar.frames avatar' = Avatar.frames avatar
  ∧ Avatar.name avatar' = Avatar.name avatar.
Proof.
  intros Hd Hi Harr. cbv zeta. split.
  - intros direction' z.
    by apply (onload_lookupFrame avatar direction index sources base64Data arr).
  - apply onload_frames.
Qed.

(** X2 when the second east frame of the sample avatar arrives before the
    first: slot 1 is filled and slot 0 stays a hole. *)
Lemma onload_makes_frame_available_witness :
  Avatar.lookupFrame (Avatar.onload "east" 1 (Avatar.new sample_definition)) "east" 1
  = Some (mkImage "east-1" true)
  ∧ Avatar.lookupFrame (Avatar.onload "east" 1 (Avatar.new sample_definition)) "east" 0
    = Avatar.lookupFrame (Avatar.new sample_definition) "east" 0.
Proof.
  destruct (onload_makes_frame_available (Avatar.new sample_definition) "east" 1
              ["east-0"; "east-1"]%string "east-1" []) as [Hlookup _].
  - reflexivity.
  - reflexivity.
  - reflexivity.
  - split.
    + exact (Hlookup "east"%string 1%Z).
    + exact (Hlookup "east"%string 0%Z).
Defined.

(** X3.  The order in which two images finish loading does not matter: the
    two [onload] handlers commute, for any two frames and any avatar. *)
Theorem onload_order_irrelevant (avatar : Avatar.t) (d d' : string) (i j : nat) :
  Avatar.onload d i (Avatar.onload d' j avatar)
  = Avatar.onload d' j (Avatar.onload d i avatar).
Proof.
  destruct avatar as [n f l]. unfold Avatar.onload. cbn.
  destruct (f !! d ≫= λ sources, sources !! i) as [a|] eqn:Ha;
    destruct (f !! d' ≫= λ sources, sources !! j) as [b|] eqn:Hb; cbn.
  - destruct (decide (d = d')) as [<-|Hne].
    + destruct (l !! d) as [arr|] eqn:Harr; cbn.
      * rewrite Ha, Hb. cbn. rewrite !lookup_insert_eq, !insert_insert_eq.
        destruct (decide (i = j)) as [<-|Hij].
        -- rewrite Ha in Hb. by injection Hb as <-.
        -- by rewrite (array_set_commute arr i j) by done.
      * rewrite Ha, Hb. cbn. by rewrite Harr.
    + destruct (l !! d) as [arr|] eqn:Harr; destruct (l !! d') as [arr'|] eqn:Harr';
        cbn; rewrite ?Ha, ?Hb; cbn;
        rewrite ?lookup_insert_ne by done; rewrite ?Harr, ?Harr'; try done.
      by rewrite insert_insert_ne by done.
  - destruct (l !! d) as [arr|]; cbn; rewrite ?Ha, ?Hb; cbn; rewrite ?Ha, ?Hb; done.
  - destruct (l !! d') as [arr|]; cbn; rewrite ?Ha, ?Hb; cbn; rewrite ?Ha, ?Hb; done.
  - rewrite ?Ha, ?Hb; cbn; rewrite ?Ha, ?Hb; done.
Qed.

(** X4.  After any sequence of image loads on a newly constructed avatar, the
    frame at index [z] of a direction is available exactly when [z] is the
    index of a load that has arrived for that direction and the definition
    has a frame source there; the image found is then the loaded image of
    that very source. *)
Theorem frame_available_iff_loaded (avatarData : AvatarData)
    (events : list (string * nat)) (direction : string) (z : Z) :
  Avatar.lookupFrame (loadAll events (Avatar.new avatarData)) direction z
  = if decide ((0 <= z)%Z ∧ (direction, Z.to_nat z) ∈ events)
    then (λ base64Data, mkImage base64Data true)
           <$> (data_frames avatarData !! direction
                  ≫= λ sources, sources !! Z.to_nat z)
    else None.
Proof.
  induction events as [|[d0 i0] events IH] using rev_ind.
  - change (loadAll [] (Avatar.new avatarData)) with (Avatar.new avatarData).
    rewrite new_lookupFrame. rewrite decide_False; [done|].
    intros [_ Hin]. by apply not_elem_of_nil in Hin.
  - rewrite loadAll_snoc.
    destruct (loadAll_wf avatarData events) as [Hframes Hdirs].
    set (avatar := loadAll events (Avatar.new avatarData)) in *.
    assert (∀ P : Prop, P → (0 <= z)%Z ∧ (direction, Z.to_nat z) ∈ events →
            (0 <= z)%Z ∧ (direction, Z.to_nat z) ∈ events ++ [(d0, i0)]) as Hmono.
    { intros _ _ [Hz Hin]. split; [done|]. apply elem_of_app. by left. }
    assert (Avatar.frames avatar !! d0 ≫= (λ sources, sources !! i0) = None →
            Avatar.lookupFrame (Avatar.onload d0 i0 avatar) direction z
            = if decide ((0 <= z)%Z ∧ (direction, Z.to_nat z) ∈ events ++ [(d0, i0)])
              then (λ base64Data, mkImage base64Data true)
                     <$> (data_frames avatarData !! direction
                            ≫= λ sources, sources !! Z.to_nat z)
              else None) as Hidle.
    { intros Hnone.
      assert (Avatar.onload d0 i0 avatar = avatar) as ->
        by (unfold Avatar.onload; by rewrite Hnone).
      rewrite IH.
      destruct (decide ((0 <= z)%Z ∧ (direction, Z.to_nat z) ∈ events))
        as [Hold|Hout].
      - rewrite decide_True; [done|]. by apply (Hmono True).
      - destruct (decide ((0 <= z)%Z
                          ∧ (direction, Z.to_nat z) ∈ events ++ [(d0, i0)]))
          as [[Hz Hin]|_]; [|done].
        apply elem_of_app in Hin as [Hin|[= -> <-]%list_elem_of_singleton];
          [by destruct Hout|].
        rewrite <- Hframes. by rewrite Hnone. }
    destruct (data_frames avatarData !! d0) as [sources|] eqn:Hd0;
      [|apply Hidle; by rewrite Hframes, Hd0].
    destruct (sources !! i0) as [b|] eqn:Hi0;
      [|apply Hidle; rewrite Hframes, Hd0; cbn; by rewrite Hi0].
    destruct (Avatar.loadedImages avatar !! d0) as [arr|] eqn:Harr;
      [|apply Hdirs in Harr; congruence].
    rewrite (onload_lookupFrame avatar d0 i0 sources b arr) by congruence.
    rewrite IH.
    destruct (decide (direction = d0 ∧ z = Z.of_nat i0)) as [[-> ->]|Hne].
    + rewrite decide_True.
      * rewrite Nat2Z.id, Hd0. cbn. by rewrite Hi0.
      * split; [lia|]. rewrite Nat2Z.id. apply elem_of_app. right.
        by apply list_elem_of_singleton.
    + apply decide_ext. split; [by apply (Hmono True)|].
      intros [Hz [Hin|[= -> Hi]%list_elem_of_singleton]%elem_of_app]; [done|].
      destruct Hne. split; [done|lia].
Qed.

(** ** The local player on the canvas *)

Lemma renderPlayer_on_screen (this : t) (player : Player.t) (c : Canvas.Context2D) :
  on_screen this player →
  renderPlayer this player c
  = drawPlayer this player (Player.x player - viewportX this)
      (Player.y player - viewportY this) c.
Proof.
  intros (Hx0 & Hx1 & Hy0 & Hy1). unfold renderPlayer, js_ge, js_le, worldToCanvas.
  cbn [fst snd].
  apply Qle_bool_iff in Hx0, Hx1, Hy0, Hy1.
  by rewrite Hx0, Hx1, Hy0, Hy1.
Qed.

Lemma renderPlayer_off_screen (this : t) (player : Player.t) (c : Canvas.Context2D) :
  ¬ on_screen this player → renderPlayer this player c = c.
Proof.
  intros Hoff. unfold renderPlayer, js_ge, js_le, worldToCanvas. cbn [fst snd].
  destruct (Qle_bool (-50) _) eqn:Hx0; [|done].
  destruct (Qle_bool _ (inject_Z (canvas_width this) + 50)) eqn:Hx1; [|done].
  destruct (Qle_bool (-50) (Player.y player - _)) eqn:Hy0; [|done].
  destruct (Qle_bool _ (inject_Z (canvas_height this) + 50)) eqn:Hy1; [|done].
  destruct Hoff. unfold on_screen. by rewrite <- !Qle_bool_iff.
Qed.

(** On one axis: a focal point inside the world lands on the canvas. *)
Lemma clamped_axis_on_canvas (world focal : Q) (size : Z) :
  0 <= focal → focal <= world → (0 <= size)%Z →
  0 <= focal - Math.max 0 (Math.min (world - inject_Z size) (focal - inject_Z size / 2))
  ∧ focal - Math.max 0 (Math.min (world - inject_Z size) (focal - inject_Z size / 2))
    <= inject_Z size.
Proof.
  intros Hlo Hhi Hsize. unfold Math.max, Math.min.
  assert (0 <= inject_Z size) as Hs.
  { change 0 with (inject_Z 0). by rewrite <- Zle_Qle. }
  set (room := world - inject_Z size) in *.
  set (wanted := focal - inject_Z size / 2) in *.
  destruct (Q.min_spec room wanted) as [[? Hmin]|[? Hmin]];
    destruct (Q.max_spec 0 (Qmin room wanted)) as [[? Hmax]|[? Hmax]];
    rewrite Hmax; subst room wanted;
    unfold Qdiv in *; change (/ 2) with (1 # 2) in *; lra.
Qed.

(** X5.  After [updateViewport], a local player that is at least half a
    canvas away from the edges of the world on an axis appears at the middle
    of the canvas on that axis. *)
Theorem local_player_centred (this : t) (pid : string) (player : Player.t) :
  playerId this = Some pid → truthy pid = true → players this !! pid = Some player →
  let halfW := inject_Z (canvas_width this) / 2 in
  let halfH := inject_Z (canvas_height this) / 2 in
  let this' := updateViewport this in
  (halfW <= Player.x player → Player.x player <= worldWidth this - halfW →
   fst (worldToCanvas this' (Player.x player) (Player.y player)) == halfW)
  ∧ (halfH <= Player.y player → Player.y player <= worldHeight this - halfH →
     snd (worldToCanvas this' (Player.x player) (Player.y player)) == halfH).
Proof.
  intros Hid Htruthy Hplayer. cbv zeta.
  rewrite (updateViewport_known this pid player Hid Htruthy Hplayer).
  unfold worldToCanvas, Math.max, Math.min.
  cbn [fst snd viewportX viewportY set_viewportX set_viewportY
       worldWidth worldHeight canvas_width canvas_height].
  split; intros Hlo Hhi.
  - set (room := worldWidth this - inject_Z (canvas_width this)) in *.
    set (wanted := Player.x player - inject_Z (canvas_width this) / 2) in *.
    destruct (Q.min_spec room wanted) as [[? Hmin]|[? Hmin]];
      destruct (Q.max_spec 0 (Qmin room wanted)) as [[? Hmax]|[? Hmax]];
      rewrite Hmax; subst room wanted;
      unfold Qdiv in *; change (/ 2) with (1 # 2) in *; lra.
  - set (room := worldHeight this - inject_Z (canvas_height this)) in *.
    set (wanted := Player.y player - inject_Z (canvas_height this) / 2) in *.
    destruct (Q.min_spec room wanted) as [[? Hmin]|[? Hmin]];
      destruct (Q.max_spec 0 (Qmin room wanted)) as [[? Hmax]|[? Hmax]];
      rewrite Hmax; subst room wanted;
      unfold Qdiv in *; change (/ 2) with (1 # 2) in *; lra.
Qed.

(** X5 in [inland_client]: the local player at (1000, 1000) is drawn at the
    middle of the 800 x 600 canvas. *)
Lemma local_player_centred_witness :
  fst (worldToCanvas (updateViewport inland_client) 1000 1000) == 800 / 2
  ∧ snd (worldToCanvas (updateViewport inland_client) 1000 1000) == 600 / 2.
Proof.
  destruct (local_player_centred inland_client "p1"
              (Player.mk "p1" "Olutobi" 1000 1000 "west" 0 "a1")
              eq_refl eq_refl eq_refl) as [Hx Hy].
  split.
  - apply Hx; apply Qle_bool_imp_le; reflexivity.
  - apply Hy; apply Qle_bool_imp_le; reflexivity.
Defined.

(** X6.  After [updateViewport], a local player that stands inside the world
    is on the canvas (the canvas having non-negative size), so the render
    loop does not cull it: its iteration is the call of [drawPlayer] at the
    player's canvas position. *)
Theorem local_player_never_culled (this : t) (pid : string) (player : Player.t)
    (c : Canvas.Context2D) :
  playerId this = Some pid → truthy pid = true → players this !! pid = Some player →
  0 <= Player.x player → Player.x player <= worldWidth this →
  0 <= Player.y player → Player.y player <= worldHeight this →
  (0 <= canvas_width this)%Z → (0 <= canvas_height this)%Z →
  let this' := updateViewport this in
  let canvasPos := worldToCanvas this' (Player.x player) (Player.y player) in
  0 <= fst canvasPos ∧ fst canvasPos <= inject_Z (canvas_width this)
  ∧ 0 <= snd canvasPos ∧ snd canvasPos <= inject_Z (canvas_height this)
  ∧ renderPlayer this' player c
    = drawPlayer this' player (fst canvasPos) (snd canvasPos) c.
Proof.
  intros Hid Htruthy Hplayer Hx0 Hx1 Hy0 Hy1 Hw Hh. cbv zeta.
  rewrite (updateViewport_known this pid player Hid Htruthy Hplayer).
  unfold worldToCanvas.
  cbn [fst snd viewportX viewportY set_viewportX set_viewportY
       worldWidth worldHeight canvas_width canvas_height].
  destruct (clamped_axis_on_canvas (worldWidth this) (Player.x player)
              (canvas_width this) Hx0 Hx1 Hw) as [Hcx0 Hcx1].
  destruct (clamped_axis_on_canvas (worldHeight this) (Player.y player)
              (canvas_height this) Hy0 Hy1 Hh) as [Hcy0 Hcy1].
  do 4 (split; [done|]).
  apply renderPlayer_on_screen. unfold on_screen.
  cbn [fst snd viewportX viewportY set_viewportX set_viewportY
       worldWidth worldHeight canvas_width canvas_height].
  repeat split; lra.
Qed.

(** X6 in [corner_client], whose local player stands at (1900, 50), close to
    two edges of the world. *)
Lemma local_player_never_culled_witness :
  0 <= fst (worldToCanvas (updateViewport corner_client) 1900 50)
  ∧ fst (worldToCanvas (updateViewport corner_client) 1900 50) <= 800
  ∧ 0 <= snd (worldToCanvas (updateViewport corner_client) 1900 50)
  ∧ snd (worldToCanvas (updateViewport corner_client) 1900 50) <= 600.
Proof.
  destruct (local_player_never_culled corner_client "p1"
              (Player.mk "p1" "Olutobi" 1900 50 "south" 0 "a1") Canvas.fresh
              eq_refl eq_refl eq_refl)
    as (Hx0 & Hx1 & Hy0 & Hy1 & _);
    try (apply Qle_bool_imp_le; reflexivity); try (cbn; lia).
  done.
Defined.

(** ** What a render pass paints *)

(** The calls of [draw] come after those already issued; they are at most
    one [drawImage]. *)
Lemma draw_appends (avatar : Avatar.t) (c : Canvas.Context2D) (x y : Q)
    (facing : string) (animationFrame : Z) (isWest : bool) :
  ∃ more : list Canvas.DrawOp,
    Canvas.calls (Avatar.draw avatar c x y facing animationFrame isWest)
    = Canvas.calls c ++ more
    ∧ Forall (λ op, player_call op = true) more
    ∧ (blank avatar → more = []).
Proof.
  destruct (Avatar.lookupFrame avatar (if isWest then "east"%string else facing)
              animationFrame) as [frame|] eqn:Hframe.
  - rewrite (draw_present _ _ _ _ _ _ _ _ Hframe). eexists. split; [done|].
    split.
    + apply Forall_singleton. by destruct isWest.
    + intros Hblank. by rewrite Hblank in Hframe.
  - rewrite (draw_absent _ _ _ _ _ _ _ Hframe). exists []. by rewrite app_nil_r.
Qed.

(** [drawPlayer] for a player whose avatar is known. *)
Lemma drawPlayer_known (this : t) (player : Player.t) (x y : Q)
    (c : Canvas.Context2D) (avatar : Avatar.t) :
  avatars this !! Player.avatar player = Some avatar →
  drawPlayer this player x y c
  = Canvas.mkContext (Canvas.current c) (Canvas.saved c)
      (Canvas.calls (Avatar.draw avatar c x y (Player.facing player)
                       (Player.animationFrame player)
                       (bool_decide (Player.facing player = "west"%string)))
         ++ label_calls (Canvas.current c) (Player.username player) x y).
Proof.
  intros Havatar. unfold drawPlayer. rewrite Havatar.
  destruct (draw_keeps_state avatar c x y (Player.facing player)
              (Player.animationFrame player)
              (bool_decide (Player.facing player = "west"%string)))
    as [Hcurrent Hsaved].
  destruct (Avatar.draw _ _ _ _ _ _ _) as [current saved calls].
  cbn in *. subst. unfold label_calls, label_style.
  by rewrite <- app_assoc.
Qed.

Lemma renderPlayer_appends (this : t) (player : Player.t) (c : Canvas.Context2D) :
  ∃ more : list Canvas.DrawOp,
    Canvas.calls (renderPlayer this player c) = Canvas.calls c ++ more
    ∧ Forall (λ op, player_call op = true) more
    ∧ ((∀ name avatar, avatars this !! name = Some avatar → blank avatar) →
       Forall (λ op, text_call op = true) more).
Proof.
  unfold renderPlayer. destruct (_ && _).
  - destruct (avatars this !! Player.avatar player) as [avatar|] eqn:Havatar.
    + rewrite (drawPlayer_known this player _ _ c avatar Havatar).
      cbn [Canvas.calls].
      destruct (draw_appends avatar c
                  (worldToCanvas this (Player.x player) (Player.y player)).1
                  (worldToCanvas this (Player.x player) (Player.y player)).2
                  (Player.facing player) (Player.animationFrame player)
                  (bool_decide (Player.facing player = "west"%string)))
        as (more & -> & Hmore & Hblank).
      eexists. rewrite <- app_assoc. split; [done|]. split.
      * apply Forall_app. split; [done|]. by repeat constructor.
      * intros Hall. rewrite (Hblank (Hall _ _ Havatar)). by repeat constructor.
    + unfold drawPlayer. rewrite Havatar. exists []. by rewrite app_nil_r.
  - exists []. by rewrite app_nil_r.
Qed.

Lemma renderPlayers_appends (this : t) (entries : list (string * Player.t))
    (c : Canvas.Context2D) :
  ∃ more : list Canvas.DrawOp,
    Canvas.calls (renderPlayers this entries c) = Canvas.calls c ++ more
    ∧ Forall (λ op, player_call op = true) more
    ∧ ((∀ name avatar, avatars this !! name = Some avatar → blank avatar) →
       Forall (λ op, text_call op = true) more).
Proof.
  induction entries as [|[pid player] entries (more & Hcalls & Hall & Htext)].
  - exists []. by rewrite app_nil_r.
  - change (renderPlayers this ((pid, player) :: entries) c)
      with (renderPlayer this player (renderPlayers this entries c)).
    destruct (renderPlayer_appends this player (renderPlayers this entries c))
      as (more' & Hcalls' & Hall' & Htext').
    exists (more ++ more'). rewrite Hcalls', Hcalls, app_assoc.
    split; [done|]. split.
    + by apply Forall_app.
    + intros Hblank. apply Forall_app. auto.
Qed.

(** The calls of a render pass: the clear, the background, then the calls
    for the players. *)
Lemma render_calls (this : t) (image : Image) :
  worldImage this = Some image →
  ∃ rest : list Canvas.DrawOp,
    Canvas.calls (ctx (render this))
    = Canvas.calls (ctx this)
        ++ Canvas.ClearRect (Canvas.current (ctx this)) 0 0
             (inject_Z (canvas_width this)) (inject_Z (canvas_height this))
        :: Canvas.DrawImageCrop (Canvas.current (ctx this)) image
             (viewportX this) (viewportY this)
             (inject_Z (canvas_width this)) (inject_Z (canvas_height this))
             0 0 (inject_Z (canvas_width this)) (inject_Z (canvas_height this))
        :: rest
    ∧ Forall (λ op, player_call op = true) rest
    ∧ ((∀ name avatar, avatars this !! name = Some avatar → blank avatar) →
       Forall (λ op, text_call op = true) rest).
Proof.
  intros Himage. rewrite (render_entries this image Himage).
  destruct (renderPlayers_appends this (map_to_list (players this))
              (background this image)) as (rest & -> & Hall & Htext).
  exists rest. split; [|done].
  unfold background. cbn. by rewrite <- !app_assoc.
Qed.

Lemma renderPlayer_skipped (this : t) (player : Player.t) (c : Canvas.Context2D) :
  ¬ on_screen this player ∨ avatars this !! Player.avatar player = None →
  renderPlayer this player c = c.
Proof.
  intros [Hoff|Hunknown].
  - by apply renderPlayer_off_screen.
  - unfold renderPlayer, drawPlayer. rewrite Hunknown. by destruct (_ && _).
Qed.

(** X7.  When every player of the mapping is either further than 50 units
    outside the canvas or has an avatar name that is not registered, a render
    pass paints the cleared surface and the background and nothing else. *)
Theorem render_only_background (this : t) (image : Image) :
  worldImage this = Some image →
  (∀ pid player, players this !! pid = Some player →
     ¬ on_screen this player ∨ avatars this !! Player.avatar player = None) →
  ctx (render this) = background this image.
Proof.
  intros Himage Hskip. rewrite (render_entries this image Himage).
  assert (Forall (λ entry : string * Player.t,
            ¬ on_screen this entry.2 ∨ avatars this !! Player.avatar entry.2 = None)
            (map_to_list (players this))) as Hall.
  { apply Forall_forall. intros [pid player] Hin%elem_of_map_to_list. eauto. }
  induction Hall as [|entry entries Hone _ IH]; [done|].
  change (renderPlayers this (entry :: entries) (background this image))
    with (renderPlayer this entry.2 (renderPlayers this entries (background this image))).
  rewrite IH. by apply renderPlayer_skipped.
Qed.

(** X7 in [corner_client] before its viewport is updated: the only player
    stands at x = 1900, beyond 800 + 50. *)
Lemma render_only_background_witness :
  ctx (render corner_client) = background corner_client (mkImage "world.jpg" false).
Proof.
  apply (render_only_background corner_client (mkImage "world.jpg" false)).
  - reflexivity.
  - intros pid player Hplayer. unfold corner_client in Hplayer.
    cbn [players set_players] in Hplayer.
    apply lookup_singleton_Some in Hplayer as [_ <-]. left.
    intros (_ & Hx & _). vm_compute in Hx. by apply Hx.
Defined.


(** X9.  A render pass with a world image object adds to the calls already
    issued exactly one [clearRect] of the whole canvas, then one background
    [drawImage] cropping the world image at the current viewport, then only
    calls for players (avatar frames and labels); when no registered avatar
    has a loaded frame these are labels only. *)
Theorem render_frame_structure (this : t) (image : Image) :
  worldImage this = Some image →
  let width := inject_Z (canvas_width this) in
  let height := inject_Z (canvas_height this) in
  let s := Canvas.current (ctx this) in
  ∃ rest : list Canvas.DrawOp,
    Canvas.calls (ctx (render this))
    = Canvas.calls (ctx this)
        ++ Canvas.ClearRect s 0 0 width height
        :: Canvas.DrawImageCrop s image (viewportX this) (viewportY this)
             width height 0 0 width height
        :: rest
    ∧ Forall (λ op, player_call op = true) rest
    ∧ ((∀ name avatar, avatars this !! name = Some avatar → blank avatar) →
       Forall (λ op, text_call op = true) rest).
Proof. intros Himage. by apply render_calls. Qed.

(** X9 in a freshly constructed client. *)
Lemma render_frame_structure_witness :
  ∃ rest : list Canvas.DrawOp,
    Canvas.calls (ctx (render (new 800 600)))
    = Canvas.ClearRect Canvas.initialState 0 0 800 600
      :: Canvas.DrawImageCrop Canvas.initialState (mkImage "world.jpg" false)
           0 0 800 600 0 0 800 600
      :: rest
    ∧ Forall (λ op, player_call op = true) rest.
Proof.
  destruct (render_frame_structure (new 800 600) (mkImage "world.jpg" false) eq_refl)
    as (rest & Hcalls & Hall & _).
  exists rest. split; [exact Hcalls|exact Hall].
Defined.

(** ** What the handlers keep and what they change *)

Lemma updateViewport_environment (this : t) :
  environment (updateViewport this) = environment this.
Proof.
  unfold updateViewport.
  destruct (playerId this) as [pid|]; [|done].
  destruct (truthy pid); [|done].
  by destruct (players this !! pid).
Qed.

Lemma render_environment (this : t) : environment (render this) = environment this.
Proof.
  destruct (render_keeps_state this) as [Hcurrent Hsaved].
  unfold environment. rewrite Hcurrent, Hsaved. by rewrite render_frame.
Qed.

Lemma handleMessage_environment (message : Message) (this : t) :
  environment (handleMessage message this) = environment this.
Proof.
  destruct message as [success pid snapshot definitions error
                      |player avatar|moved|pid|action]; cbn [handleMessage].
  - destruct success; [|done].
    rewrite (join_avatars_loop definitions
               (set_players snapshot (set_playerId (Some pid) this))).
    change (environment (log ?e ?s)) with (environment s).
    by rewrite render_environment, updateViewport_environment.
  - rewrite render_environment. by destruct avatar.
  - by rewrite render_environment, updateViewport_environment.
  - by rewrite render_environment.
  - done.
Qed.

Lemma onmessage_environment (JSON_parse : string → Completion Message)
    (data : string) (this : t) :
  environment (onmessage JSON_parse data this) = environment this.
Proof.
  unfold onmessage. destruct (JSON_parse data) as [message|error]; cbn.
  - apply handleMessage_environment.
  - done.
Qed.

Lemma updateViewport_follows (this : t) : viewport_follows (updateViewport this).
Proof.
  intros pid player Hid Htruthy Hplayer.
  rewrite updateViewport_playerId in Hid. rewrite updateViewport_players in Hplayer.
  by rewrite (updateViewport_known this pid player Hid Htruthy Hplayer).
Qed.

Lemma render_follows (this : t) : viewport_follows this → viewport_follows (render this).
Proof. rewrite render_frame. by destruct this. Qed.

(** Recomputing the viewport after a second replacement of the player
    mapping forgets the first, provided every player known after the first
    is still known after the second. *)
Lemma updateViewport_twice (this : t) (first second : gmap string Player.t) :
  (∀ pid, second !! pid = None → first !! pid = None) →
  updateViewport (set_players second (updateViewport (set_players first this)))
  = updateViewport (set_players second this).
Proof.
  intros Hgrow. destruct this as [w h c image ww wh [pid|] ps avs vx vy log];
    [|done].
  unfold updateViewport. cbn.
  destruct (truthy pid) eqn:Htruthy; cbn; [|by rewrite Htruthy].
  destruct (first !! pid) as [player|] eqn:Hfirst; cbn; rewrite Htruthy; [|done].
  destruct (second !! pid) as [player'|] eqn:Hsecond; [done|].
  apply Hgrow in Hsecond. congruence.
Qed.






(** X11.  [player_left] changes neither the local player id, nor the avatar
    mapping, nor the viewport, nor the console, also when the player that
    left is the local one; for an id that is not in the player mapping the
    whole session state is unchanged. *)
Theorem player_left_keeps_camera (this : t) (X : string) :
  let this' := handleMessage (player_left X) this in
  playerId this' = playerId this
  ∧ avatars this' = avatars this
  ∧ viewportX this' = viewportX this
  ∧ viewportY this' = viewportY this
  ∧ console this' = console this
  ∧ (players this !! X = None → session this' = session this).
Proof.
  cbn [handleMessage]. rewrite render_frame. cbn.
  repeat split. intros Habsent. unfold session. cbn. by rewrite delete_id.
Qed.

(** X11 for an id nobody has, in [corner_client]. *)
Lemma player_left_keeps_camera_witness :
  session (handleMessage (player_left "nobody") corner_client) = session corner_client.
Proof.
  apply (player_left_keeps_camera corner_client "nobody").
  reflexivity.
Defined.

(** X12.  Two [players_moved] messages in a row leave the same session state
    as one message whose payload is the second laid over the first. *)
Theorem players_moved_batches (this : t) (first second : gmap string Player.t) :
  session (handleMessage (players_moved second)
             (handleMessage (players_moved first) this))
  = session (handleMessage (players_moved (second ∪ first)) this).
Proof.
  cbn [handleMessage]. rewrite !render_session.
  set (once := updateViewport (set_players (Object_assign (players this) first) this)).
  rewrite (render_frame once).
  assert (players (set_ctx (ctx (render once)) once) = first ∪ players this) as ->.
  { cbn. unfold once. rewrite updateViewport_players. cbn.
    apply Object_assign_union. }
  rewrite !Object_assign_union.
  assert (set_players (second ∪ (first ∪ players this)) (set_ctx (ctx (render once)) once)
          = set_ctx (ctx (render once))
              (set_players (second ∪ (first ∪ players this)) once)) as ->
    by (by destruct once).
  rewrite updateViewport_set_ctx.
  unfold once at 2. rewrite Object_assign_union.
  rewrite updateViewport_twice.
  - by rewrite (assoc_L (∪)).
  - intros pid [_ Hnone]%lookup_union_None. done.
Qed.

(** X13.  After [players_moved] and after a successful join response, the
    viewport is the one computed from the record the local player has in the
    new player mapping, whenever the local player is in it. *)
Theorem viewport_follows_local_player (this : t) (moved : gmap string Player.t)
    (pid : string) (snapshot : gmap string Player.t)
    (definitions : gmap string AvatarData) (error : string) :
  viewport_follows (handleMessage (players_moved moved) this)
  ∧ viewport_follows
      (handleMessage (join_game true pid snapshot definitions error) this).
Proof.
  split; cbn [handleMessage].
  - apply render_follows, updateViewport_follows.
  - rewrite (join_avatars_loop definitions
               (set_players snapshot (set_playerId (Some pid) this))).
    assert (∀ e s, viewport_follows s → viewport_follows (log e s)) as Hlog
      by (intros e s; by destruct s).
    apply Hlog, render_follows, updateViewport_follows.
Qed.

(** X13 when the local player of [inland_client] is moved to (1900, 50). *)
Lemma viewport_follows_local_player_witness :
  viewportX (handleMessage
               (players_moved
                  {[ "p1"%string := Player.mk "p1" "Olutobi" 1900 50 "south" 0 "a1" ]})
               inland_client)
  = Math.max 0 (Math.min (2048 - 800) (1900 - 800 / 2)).
Proof.
  destruct (viewport_follows_local_player inland_client
              {[ "p1"%string := Player.mk "p1" "Olutobi" 1900 50 "south" 0 "a1" ]}
              "p1" ∅ ∅ "") as [Hmoved _].
  destruct (Hmoved "p1"%string (Player.mk "p1" "Olutobi" 1900 50 "south" 0 "a1"))
    as [Hx _].
  - reflexivity.
  - reflexivity.
  - reflexivity.
  - exact Hx.
Defined.

(** X14.  No inbound message changes the canvas size, the world image, the
    world size, or the drawing state and stack of saved states of the
    context: this holds for one message after the other of any list, decoded
    or as raw payloads with any decoder.  In particular a freshly constructed
    client still draws with the initial drawing state (identity transform)
    and an empty stack after any payloads. *)
Theorem messages_keep_environment (JSON_parse : string → Completion Message)
    (payloads : list string) (messages : list Message) (this : t) :
  environment (handleMessages messages this) = environment this
  ∧ environment (receive JSON_parse payloads this) = environment this
  ∧ ∀ innerWidth innerHeight : Z,
      Canvas.current (ctx (receive JSON_parse payloads (new innerWidth innerHeight)))
      = Canvas.initialState
      ∧ Canvas.saved (ctx (receive JSON_parse payloads (new innerWidth innerHeight)))
        = [].
Proof.
  assert (∀ s, environment (receive JSON_parse payloads s) = environment s) as Hreceive.
  { induction payloads as [|data payloads IH]; intros s; [done|].
    cbn. unfold receive in IH. by rewrite IH, onmessage_environment. }
  split; [|split; [apply Hreceive|]].
  - revert this. induction messages as [|message messages IH]; intros this; [done|].
    cbn. unfold handleMessages in IH. by rewrite IH, handleMessage_environment.
  - intros innerWidth innerHeight.
    pose proof (Hreceive (new innerWidth innerHeight)) as Henv.
    unfold environment in Henv. by injection Henv as _ _ _ _ _ -> ->.
Qed.

(** X15.  The frame rendered by the handler of a successful join response
    crops the background at the viewport the handler has just computed, and
    apart from the clear and the background it consists of name labels only:
    every avatar is newly constructed, so no avatar frame can be drawn yet. *)
Theorem join_first_frame (this : t) (pid : string)
    (snapshot : gmap string Player.t) (definitions : gmap string AvatarData)
    (error : string) (image : Image) :
  worldImage this = Some image →
  let this' := handleMessage (join_game true pid snapshot definitions error) this in
  let width := inject_Z (canvas_width this) in
  let height := inject_Z (canvas_height this) in
  let s := Canvas.current (ctx this) in
  ∃ labels : list Canvas.DrawOp,
    Canvas.calls (ctx this')
    = Canvas.calls (ctx this)
        ++ Canvas.ClearRect s 0 0 width height
        :: Canvas.DrawImageCrop s image (viewportX this') (viewportY this')
             width height 0 0 width height
        :: labels
    ∧ Forall (λ op, text_call op = true) labels.
Proof.
  intros Himage. cbv zeta. cbn [handleMessage].
  rewrite (join_avatars_loop definitions
             (set_players snapshot (set_playerId (Some pid) this))).
  set (ready := updateViewport _).
  assert (environment ready = environment this) as Henv
    by (unfold ready; by rewrite updateViewport_environment).
  unfold environment in Henv.
  injection Henv as Hw Hh Hworld _ _ Hcurrent _.
  assert (ctx ready = ctx this) as Hctx.
  { unfold ready. set (joined := set_avatars _ _).
    change (ctx this) with (ctx joined).
    unfold updateViewport. destruct (playerId joined) as [p|]; [|done].
    destruct (truthy p); [|done]. by destruct (players joined !! p). }
  destruct (render_calls ready image) as (labels & Hcalls & _ & Htext).
  { by rewrite Hworld. }
  rewrite Hw, Hh, Hctx in Hcalls.
  exists labels. cbn [ctx log viewportX viewportY].
  pose proof (render_session ready) as Hsession. unfold session in Hsession.
  injection Hsession as _ _ _ -> ->.
  split; [exact Hcalls|].
  apply Htext. intros name avatar Havatar.
  unfold ready in Havatar. rewrite updateViewport_avatars in Havatar.
  cbn in Havatar. rewrite lookup_fmap in Havatar.
  destruct (definitions !! name) as [avatarData|]; [|done].
  injection Havatar as <-. intros direction index. apply new_lookupFrame.
Qed.

(** X15 in [early_client], the freshly constructed client that received the
    sample join response. *)
Lemma join_first_frame_witness :
  ∃ labels : list Canvas.DrawOp,
    Canvas.calls (ctx early_client)
    = Canvas.ClearRect Canvas.initialState 0 0 800 600
      :: Canvas.DrawImageCrop Canvas.initialState (mkImage "world.jpg" false)
           (viewportX early_client) (viewportY early_client) 800 600 0 0 800 600
      :: labels
    ∧ Forall (λ op, text_call op = true) labels.
Proof.
  exact (join_first_frame (new 800 600) "p1" {[ "p1"%string := p1_record ]}
           {[ "a1"%string := sample_definition ]} "" (mkImage "world.jpg" false)
           eq_refl).
Defined.





